(** * TEASER++ DRS certifier: a shallow embedding of [certification.cc]

The embedding follows [teaser/src/certification.cc] statement by
statement.  Modelling decisions:

- a C++ [double] is idealised as an exact rational ([Qc]); rounding,
  infinities and NaN are outside the model;
- a C++ [int] is a [Z], with [/] the truncating quotient [Z.quot]; where
  the source computes sizes and counters in [int] ([getLinearProjection])
  the 32-bit wrap-around is written out; a loop
  [for (size_t i = 0; i < n; ++i)] over an [int] bound [n] compares in
  [size_t], so its bound is [n mod 2^64];
- an Eigen dense matrix is its two dimensions with its coefficient
  function; a sparse matrix is its dimensions with the triplets it was
  built from (duplicates are summed on access);
- Eigen's assertions are on: a range, size or aliasing assertion that
  fails is a failure of a small error monad, where the source indexes or
  combines matrices it did not size itself; the reads of uninitialised
  storage are explicit arguments of the model. *)

From Stdlib Require Import ZArith QArith Qcanon List Lia Bool Arith.
Import ListNotations.
Local Open Scope nat_scope.

(** ** Scalars *)

Definition of_int (z : Z) : Qc := Q2Qc (inject_Z z).

(** The floating literals of the source. *)
Definition lit_0_5 : Qc := Q2Qc (1 # 2).
Definition lit_0_25 : Qc := Q2Qc (1 # 4).
Definition lit_0_75 : Qc := Q2Qc (3 # 4).
Definition lit_1_5 : Qc := Q2Qc (3 # 2).

Definition Qc_eqb (a b : Qc) : bool := Qeq_bool a b.

Definition Qc_ltb (a b : Qc) : bool :=
  match (a ?= b)%Qc with
  | Lt => true
  | _ => false
  end.

(** Conversion of a [double] to [int]: truncation. *)
Definition to_int (q : Qc) : Z := Z.quot (Qnum q) (Zpos (Qden q)).

(** A 32-bit [int]: the value an [int] expression takes, wrapped around. *)
Definition int_wrap (z : Z) : Z := ((z + 2 ^ 31) mod 2 ^ 32 - 2 ^ 31)%Z.

(** [size_t] view of an [int] loop bound. *)
Definition size_t_of_int (z : Z) : nat := Z.to_nat (z mod 2 ^ 64).

Fixpoint sum_upto (n : nat) (f : nat -> Qc) : Qc :=
  match n with
  | O => 0%Qc
  | S k => (sum_upto k f + f k)%Qc
  end.

(** ** Failures *)

Inductive failure : Type :=
| CommaInitializerRange   (* operator<< on a matrix without room *)
| IndexOutOfRange         (* coefficient or block access outside the matrix *)
| SizeMismatch            (* operands of different sizes *)
| AssertFailed            (* an [assert] of the source itself *)
| TransposeAliasing.      (* an assignment whose right-hand side holds the
                             transpose of its destination *)

Inductive result (A : Type) : Type :=
| Ok (a : A)
| Failed (f : failure).
Arguments Ok {A} a.
Arguments Failed {A} f.

Definition bind {A B : Type} (m : result A) (k : A -> result B) : result B :=
  match m with
  | Ok a => k a
  | Failed f => Failed f
  end.

Notation "x <- m ;; k" := (bind m (fun x => k))
  (at level 61, m at next level, right associativity).

Fixpoint foldM {A S : Type} (step : S -> A -> result S) (l : list A) (s : S)
  : result S :=
  match l with
  | [] => Ok s
  | a :: l' => s' <- step s a ;; foldM step l' s'
  end.

(** ** The Eigen layer *)

Module Eigen.

Record Matrix : Type := mkMatrix {
  rows : nat;
  cols : nat;
  coeff : nat -> nat -> Qc
}.

Definition Zero (r c : nat) : Matrix := mkMatrix r c (fun _ _ => 0%Qc).

Definition Identity (n : nat) : Matrix :=
  mkMatrix n n (fun i j => if i =? j then 1%Qc else 0%Qc).

(** A matrix whose storage was allocated and never written: its
    coefficients are whatever [junk] the memory held. *)
Definition Uninitialized (r c : nat) (junk : nat -> nat -> Qc) : Matrix :=
  mkMatrix r c junk.

(** [m << a, b, ...] on a fixed-size matrix, filled row by row. *)
Definition of_rows (r c : nat) (l : list (list Qc)) : Matrix :=
  mkMatrix r c (fun i j => nth j (nth i l []) 0%Qc).

(** A matrix given by its columns (a point set of column vectors). *)
Definition of_cols (r : nat) (l : list (list Qc)) : Matrix :=
  mkMatrix r (length l) (fun i j => nth i (nth j l []) 0%Qc).

Definition in_block (r0 c0 h w i j : nat) : bool :=
  (r0 <=? i) && (i <? r0 + h) && (c0 <=? j) && (j <? c0 + w).

(** [M.block(r0, c0, h, w)] read. *)
Definition block (M : Matrix) (r0 c0 h w : nat) : Matrix :=
  mkMatrix h w (fun i j => coeff M (r0 + i) (c0 + j)).

(** [M.block(r0, c0, h, w) = B]. *)
Definition set_block (M : Matrix) (r0 c0 h w : nat) (B : Matrix) : Matrix :=
  mkMatrix (rows M) (cols M)
    (fun i j => if in_block r0 c0 h w i j
                then coeff B (i - r0) (j - c0) else coeff M i j).

(** [M(i, j) = v]. *)
Definition set_coeff (M : Matrix) (i0 j0 : nat) (v : Qc) : Matrix :=
  mkMatrix (rows M) (cols M)
    (fun i j => if (i =? i0) && (j =? j0) then v else coeff M i j).

Definition transpose (M : Matrix) : Matrix :=
  mkMatrix (cols M) (rows M) (fun i j => coeff M j i).

Definition add (A B : Matrix) : Matrix :=
  mkMatrix (rows A) (cols A) (fun i j => (coeff A i j + coeff B i j)%Qc).

Definition sub (A B : Matrix) : Matrix :=
  mkMatrix (rows A) (cols A) (fun i j => (coeff A i j - coeff B i j)%Qc).

Definition scale (s : Qc) (A : Matrix) : Matrix :=
  mkMatrix (rows A) (cols A) (fun i j => (s * coeff A i j)%Qc).

Definition div_scalar (A : Matrix) (s : Qc) : Matrix :=
  mkMatrix (rows A) (cols A) (fun i j => (coeff A i j / s)%Qc).

Definition mul (A B : Matrix) : Matrix :=
  mkMatrix (rows A) (cols B)
    (fun i j => sum_upto (cols A) (fun k => (coeff A i k * coeff B k j)%Qc)).

Definition neg (A : Matrix) : Matrix :=
  mkMatrix (rows A) (cols A) (fun i j => (- coeff A i j)%Qc).

(** [m << A, B] for two blocks of full width: [A] above [B]. *)
Definition vstack (A B : Matrix) : Matrix :=
  mkMatrix (rows A + rows B) (cols A)
    (fun i j => if i <? rows A then coeff A i j
                else coeff B (i - rows A) j).

(** [M.setZero()]. *)
Definition setZero (M : Matrix) : Matrix := Zero (rows M) (cols M).

(** [M.resize(r, c)]: the storage is kept (read in column-major order)
    when the number of coefficients does not change; otherwise it is
    allocated anew and holds [junk]. *)
Definition resize (M : Matrix) (r c : nat) (junk : nat -> nat -> Qc)
  : Matrix :=
  mkMatrix r c
    (fun i j =>
       if rows M * cols M =? r * c
       then coeff M ((i + r * j) mod rows M) ((i + r * j) / rows M)
       else junk i j).

(** [M = M + M.transpose()].  The sum asserts that its operands have one
    size; the assignment asserts that its right-hand side does not hold
    the transpose of its destination, a check Eigen makes for destinations
    with more than one row and more than one column. *)
Definition add_transpose_assign (M : Matrix) : result Matrix :=
  if negb (rows M =? cols M) then Failed SizeMismatch
  else if (1 <? rows M) && (1 <? cols M) then Failed TransposeAliasing
  else Ok (add M (transpose M)).

(** [A - B], with Eigen's assertion that the sizes agree. *)
Definition sub_checked (A B : Matrix) : result Matrix :=
  if (rows A =? rows B) && (cols A =? cols B) then Ok (sub A B)
  else Failed SizeMismatch.

(** [v.squaredNorm()] of a column vector. *)
Definition squaredNorm (v : Matrix) : Qc :=
  sum_upto (rows v) (fun i => (coeff v i 0 * coeff v i 0)%Qc).

(** [a.dot(b)] of two column vectors. *)
Definition dot (a b : Matrix) : Qc :=
  sum_upto (rows a) (fun i => (coeff a i 0 * coeff b i 0)%Qc).

(** [M.col(k)], with Eigen's range assertion. *)
Definition col (M : Matrix) (k : nat) : result Matrix :=
  if k <? cols M then Ok (block M 0 k (rows M) 1)
  else Failed IndexOutOfRange.

(** [M(i, j)], with Eigen's range assertion. *)
Definition at2 (M : Matrix) (i j : nat) : result Qc :=
  if (i <? rows M) && (j <? cols M) then Ok (coeff M i j)
  else Failed IndexOutOfRange.

(** [Eigen::Map<Matrix<double, n, 1>>(A.data())]: the column-major
    storage of [A] read as one column. *)
Definition map_to_vector (A : Matrix) : Matrix :=
  mkMatrix (rows A * cols A) 1
    (fun n _ => coeff A (n mod rows A) (n / rows A)).

(** [Eigen::Map<Matrix<double, r, c>>(v.data())]: a column read as the
    column-major storage of an [r] by [c] matrix. *)
Definition map_to_matrix (r c : nat) (v : Matrix) : Matrix :=
  mkMatrix r c (fun i j => coeff v (i + r * j) 0).

(** [v << a, b, ...] on a dynamic row vector of [n] columns: the
    comma initializer asserts that the target is not empty and, at the
    end, that it received exactly as many coefficients as it holds. *)
Definition comma_init_row (n : nat) (vals : list Qc) : result Matrix :=
  if n =? 0 then Failed CommaInitializerRange
  else if length vals =? n then Ok (of_rows 1 n [vals])
  else Failed CommaInitializerRange.

(** A sparse matrix: its size and the triplets given to
    [setFromTriplets], which sums the values of equal positions. *)
Record Triplet : Type := mkTriplet {
  t_row : nat;
  t_col : nat;
  t_val : Qc
}.

Record SparseMatrix : Type := mkSparse {
  s_rows : nat;
  s_cols : nat;
  s_triplets : list Triplet
}.

Definition s_coeff (A : SparseMatrix) (i j : nat) : Qc :=
  fold_right
    (fun t acc =>
       if (t_row t =? i) && (t_col t =? j) then (t_val t + acc)%Qc else acc)
    0%Qc (s_triplets A).

Definition to_dense (A : SparseMatrix) : Matrix :=
  mkMatrix (s_rows A) (s_cols A) (s_coeff A).

Definition mat_eqb (A B : Matrix) : bool :=
  (rows A =? rows B) && (cols A =? cols B) &&
  forallb (fun i => forallb (fun j => Qc_eqb (coeff A i j) (coeff B i j))
                      (seq 0 (cols A)))
          (seq 0 (rows A)).

End Eigen.

(** ** Helpers of [teaser/linalg.h] *)

Module Linalg.
Import Eigen.

(** Modelled from the spec: [teaser::hatmap] of linalg.h is not among the
    sources; the spec names it the skew-symmetric hat map of a
    3-vector. *)
Definition hatmap (u : Matrix) : Matrix :=
  let x := coeff u 0 0 in
  let y := coeff u 1 0 in
  let z := coeff u 2 0 in
  of_rows 3 3 [ [ 0%Qc; (- z)%Qc; y ];
                [ z; 0%Qc; (- x)%Qc ];
                [ (- y)%Qc; x; 0%Qc ] ].

(** Modelled from the spec: [teaser::vectorKron] of linalg.h is not among
    the sources; the spec names it the Kronecker product of two vectors.
    Both arguments are column vectors. *)
Definition vectorKron (v1 v2 : Matrix) : Matrix :=
  mkMatrix (rows v1 * rows v2) 1
    (fun n _ => (coeff v1 (n / rows v2) 0 * coeff v2 (n mod rows v2) 0)%Qc).

End Linalg.

(** ** [teaser::DRSCertifier] *)

Module DRSCertifier.
Import Eigen Linalg.

(** The 9 by 16 coefficient matrix that maps vec(q q^T) to vec(R). *)
Definition P_table : list (list Z) :=
  [ [ 1; 0; 0; 0; 0; -1; 0; 0; 0; 0; -1; 0; 0; 0; 0; 1 ];
    [ 0; 1; 0; 0; 1; 0; 0; 0; 0; 0; 0; 1; 0; 0; 1; 0 ];
    [ 0; 0; 1; 0; 0; 0; 0; -1; 1; 0; 0; 0; 0; -1; 0; 0 ];
    [ 0; 1; 0; 0; 1; 0; 0; 0; 0; 0; 0; -1; 0; 0; -1; 0 ];
    [ -1; 0; 0; 0; 0; 1; 0; 0; 0; 0; -1; 0; 0; 0; 0; 1 ];
    [ 0; 0; 0; 1; 0; 0; 1; 0; 0; 1; 0; 0; 1; 0; 0; 0 ];
    [ 0; 0; 1; 0; 0; 0; 0; 1; 1; 0; 0; 0; 0; 1; 0; 0 ];
    [ 0; 0; 0; -1; 0; 0; 1; 0; 0; 1; 0; 0; -1; 0; 0; 0 ];
    [ -1; 0; 0; 0; 0; -1; 0; 0; 0; 0; 1; 0; 0; 0; 0; 1 ] ]%Z.

Definition P : Matrix := of_rows 9 16 (map (map of_int) P_table).

(** [P_k = reshape(P' * reshape(v2(:,k) * v1(:,k)', [9,1]), [4,4])]. *)
Definition P_k_of (v1k v2k : Matrix) : Matrix :=
  let temp_A := block (mul v2k (transpose v1k)) 0 0 3 3 in
  let temp_map2vec := map_to_vector temp_A in
  let temp_B := mul (transpose P) temp_map2vec in
  map_to_matrix 4 4 temp_B.

Section WithConfiguration.

(** The members [cbar2_] and [max_iterations_] of the class, declared
    in certification.h. *)
Variable cbar2_ : Qc.
Variable max_iterations_ : nat.

Section QCost.
Variables v1 v2 : Matrix.

Definition Q1_step (Q1 : Matrix) (k : nat) : result Matrix :=
  let start_idx := k * 4 + 4 in
  v2k <- col v2 k ;;
  v1k <- col v1 k ;;
  let P_k := P_k_of v1k v2k in
  let ck := (lit_0_5 * (squaredNorm v1k + squaredNorm v2k - cbar2_))%Qc in
  let Q1a :=
    set_block Q1 0 start_idx 4 4
      (add (sub (block Q1 0 start_idx 4 4) (scale lit_0_5 P_k))
           (scale (ck / of_int 2)%Qc (Identity 4))) in
  Ok (set_block Q1a start_idx 0 4 4
        (add (sub (block Q1a start_idx 0 4 4) (scale lit_0_5 P_k))
             (scale (ck / of_int 2)%Qc (Identity 4)))).

Definition Q2_step (Q2 : Matrix) (k : nat) : result Matrix :=
  let start_idx := k * 4 + 4 in
  v2k <- col v2 k ;;
  v1k <- col v1 k ;;
  let P_k := P_k_of v1k v2k in
  let ck := (lit_0_5 * (squaredNorm v1k + squaredNorm v2k + cbar2_))%Qc in
  Ok (set_block Q2 start_idx start_idx 4 4
        (add (sub (block Q2 start_idx start_idx 4 4) P_k)
             (scale ck (Identity 4)))).

Definition getQCost : result Matrix :=
  let N := cols v1 in
  let Npm := 4 + 4 * N in
  Q1 <- foldM Q1_step (seq 0 N) (Zero Npm Npm) ;;
  Q2 <- foldM Q2_step (seq 0 N) (Zero Npm Npm) ;;
  Ok (add Q1 Q2).
End QCost.


(** *** [getLinearProjection] *)

(** The first loop: [mat2vec(i, j) = count; count += 1] over the pairs
    i < j, with [count] an [int]. *)
Definition build_mat2vec (N : nat) (outer : nat) : Matrix :=
  fst (fold_left
         (fun st i =>
            fold_left
              (fun st j =>
                 (set_coeff (fst st) i j (of_int (snd st)),
                  int_wrap (snd st + 1)))
              (seq (i + 1) (N - (i + 1))) st)
         (seq 0 outer) (Zero N N, 0%Z)).

Definition var_idx (mat2vec : Matrix) (i j : nat) : nat :=
  Z.to_nat (to_int (coeff mat2vec i j)).

Section LinearProjection.
Variable theta_prepended : Matrix.

Definition th (k : nat) : Qc := coeff theta_prepended 0 k.

(** The two [p] loops of one pair (i, j), with [y] the [int] of the
    source. *)
Definition row_i_triplets (mat2vec : Matrix) (y : Z) (N i j : nat)
  : list Triplet :=
  let var_1_idx := var_idx mat2vec i j in
  flat_map
    (fun p =>
       if negb (p =? j) && negb (p =? i) then
         if p <? i
         then [ mkTriplet (var_idx mat2vec p i) var_1_idx
                  (of_int y * th j * th p)%Qc ]
         else [ mkTriplet (var_idx mat2vec i p) var_1_idx
                  (of_int (- y) * th j * th p)%Qc ]
       else [])
    (seq 0 N).

Definition row_j_triplets (mat2vec : Matrix) (y : Z) (N i j : nat)
  : list Triplet :=
  let var_1_idx := var_idx mat2vec i j in
  flat_map
    (fun p =>
       if negb (p =? i) && negb (p =? j) then
         if p <? j
         then [ mkTriplet (var_idx mat2vec p j) var_1_idx
                  (of_int (- y) * th i * th p)%Qc ]
         else [ mkTriplet (var_idx mat2vec j p) var_1_idx
                  (of_int y * th i * th p)%Qc ]
       else [])
    (seq 0 N).

(** [N0], [y], [x], [N] and [nr_vals] are [int]s.  (The divisor
    [2 * N0 + 6] wraps to 0 for a theta of 2^31 - 2 entries only, where the
    quotient is undefined in C++ and 0 here; a negative [N] or [nr_vals]
    gives an empty matrix here.) *)
Definition getLinearProjection : SparseMatrix :=
  let N0 : Z := int_wrap (Z.of_nat (cols theta_prepended) - 1) in
  let y : Z := Z.quot 1 (int_wrap (2 * N0 + 6)) in
  let x : Z := int_wrap ((N0 + 1) * y) in
  let N : Z := int_wrap (N0 + 1) in
  let nr_vals : Z := Z.quot (int_wrap (N * (N - 1))) 2 in
  let outer := size_t_of_int (int_wrap (N - 1)) in
  let mat2vec := build_mat2vec (Z.to_nat N) outer in
  let off_diagonal :=
    flat_map
      (fun i =>
         flat_map
           (fun j =>
              row_i_triplets mat2vec y (Z.to_nat N) i j ++
              row_j_triplets mat2vec y (Z.to_nat N) i j)
           (seq (i + 1) (Z.to_nat N - (i + 1))))
      (seq 0 outer) in
  let diagonal :=
    map (fun i => mkTriplet i i (of_int x))
        (seq 0 (size_t_of_int nr_vals)) in
  mkSparse (Z.to_nat nr_vals) (Z.to_nat nr_vals)
           (off_diagonal ++ diagonal).
End LinearProjection.

(** *** [getOmega1] and [getBlockDiagOmega] *)

Record Quaternion : Type := mkQuaternion {
  qx : Qc; qy : Qc; qz : Qc; qw : Qc
}.

Definition getOmega1 (q : Quaternion) : Matrix :=
  of_rows 4 4
    [ [ qw q; (- qz q)%Qc; qy q; qx q ];
      [ qz q; qw q; (- qz q)%Qc; qy q ];
      [ (- qy q)%Qc; qz q; qw q; qz q ];
      [ (- qz q)%Qc; (- qy q)%Qc; (- qz q)%Qc; qw q ] ].

Definition getBlockDiagOmega (Npm : nat) (q : Quaternion) : Matrix :=
  fold_left
    (fun D_omega i =>
       let start_idx := i * 4 in
       set_block D_omega start_idx start_idx 4 4 (getOmega1 q))
    (seq 0 (Npm / 4)) (Zero Npm Npm).

(** *** [getBlockRowSum] *)

Definition getBlockRowSum (A : Matrix) (row : nat) (theta : Matrix)
  : Matrix :=
  let unit := set_coeff (Zero 4 1) 3 0 1%Qc in
  let vector := vectorKron (transpose theta) unit in
  let start_idx := row in
  let entire_row := block A start_idx 0 4 (cols A) in
  mul entire_row vector.

(** *** [getOptimalDualProjection] *)

Section OptimalDualProjection.
Variable W : Matrix.
Variable theta_prepended : Matrix.
Variable A_inv : SparseMatrix.

(** [temp_B] is declared and never written: what it holds at the
    iteration (i, j) is indeterminate. *)
Variable temp_B_uninit : nat -> nat -> Qc * Qc.

(** The caller's matrix behind the pointer [W_dual], and the content
    of a fresh allocation by [resize]. *)
Variable W_dual_in : Matrix.
Variable W_dual_junk : nat -> nat -> Qc.

Definition dp_Npm : nat := rows W.
Definition dp_N : Z := (Z.of_nat (dp_Npm / 4) - 1)%Z.

(** The pairs (i, j) of the two nested loops
    [for (size_t i = 0; i < N; ++i) for (size_t j = i + 1; j < N + 1; ++j)],
    in the order the loops visit them. *)
Definition dp_pairs : list (nat * nat) :=
  flat_map
    (fun i => map (fun j => (i, j))
                  (seq (i + 1) (size_t_of_int (dp_N + 1) - (i + 1))))
    (seq 0 (size_t_of_int dp_N)).

(** The row [y_b_Wt] computed at the iteration (i, j). *)
Definition y_b_Wt (i j : nat) : Matrix :=
  let row_idx_start := i * 4 in
  let row_idx_end := i * 4 + 3 in
  let col_idx_start := j * 4 in
  let col_idx_end := i * 4 + 3 in
  let theta_ij :=
    (coeff theta_prepended 0 i * coeff theta_prepended 0 j)%Qc in
  let temp_A := of_rows 1 2 [ [ (- theta_ij)%Qc; 1%Qc ] ] in
  let temp_B :=
    of_rows 1 2 [ [ fst (temp_B_uninit i j); snd (temp_B_uninit i j) ] ] in
  let temp_A := of_rows 1 2 [ [ (- (1))%Qc; theta_ij ] ] in
  let temp_C := block W row_idx_end row_idx_start 1 3 in
  let temp_D := block W col_idx_end row_idx_start 1 3 in
  let temp_CD := vstack temp_C temp_D in
  let temp_E := block W row_idx_end col_idx_start 1 3 in
  let temp_F := block W col_idx_end col_idx_start 1 3 in
  let temp_EF := vstack temp_E temp_F in
  add (mul temp_A temp_CD) (mul temp_B temp_EF).

Definition compute_b_W : Matrix :=
  let nr_off_diag_blks := s_rows A_inv in
  fst (fold_left
         (fun st ij =>
            (set_block (fst st) (snd st) 0 1 3
                       (y_b_Wt (fst ij) (snd ij)),
             snd st + 1))
         dp_pairs (Zero nr_off_diag_blks 3, 0)).

Definition b_W_dual : Matrix := mul (to_dense A_inv) compute_b_W.

(** The block [W_dual_ij] assembled at the iteration (i, j) for the
    row [count] of [b_W_dual]. *)
Definition W_dual_ij_of (i j count : nat) : Matrix :=
  let row_idx_start := i * 4 in
  let W_i := block W row_idx_start 0 4 (cols W) in
  let col_idx_start := j * 4 in
  let W_ij := block W_i 0 col_idx_start 4 4 in
  let y_dual_ij := transpose (block b_W_dual count 0 1 3) in
  let W_dual_ij := div_scalar (sub W_ij (transpose W_ij)) (of_int 2) in
  let W_dual_ij := set_block W_dual_ij 0 3 3 1 y_dual_ij in
  set_block W_dual_ij 3 0 1 3 (neg (transpose y_dual_ij)).

(** The range assertions of one pair of loops over the pairs (i, j):
    [check i j] for the block accesses of the iteration and
    [count < nr_off_diag_blks] for the row [count] of [b_W] or [b_W_dual],
    with [count] incremented at every pair. *)
Definition loops_in_range (check : nat -> nat -> bool) : bool :=
  fst (fold_left
         (fun st ij =>
            (fst st && check (fst ij) (snd ij) && (snd st <? s_rows A_inv),
             snd st + 1))
         dp_pairs (true, 0)).

(** First loops: [W.block<1, 3>(i * 4 + 3, i * 4)] and
    [W.block<1, 3>(i * 4 + 3, j * 4)]. *)
Definition first_loops_in_range : bool :=
  loops_in_range
    (fun i j => (i * 4 + 3 + 1 <=? rows W) && (i * 4 + 3 <=? cols W)
                && (j * 4 + 3 <=? cols W)).

(** Second loops: [W.block(i * 4, 0, 4, W.cols())] for every i, then
    [W_i.block(0, j * 4, 4, 4)] and [W_dual_i.block<4, 4>(0, j * 4)]. *)
Definition second_loops_in_range : bool :=
  forallb (fun i => i * 4 + 4 <=? rows W) (seq 0 (size_t_of_int dp_N))
  && loops_in_range
       (fun i j => (j * 4 + 4 <=? cols W) && (j * 4 + 4 <=? dp_Npm)).

(** State of the second pair of loops: [*W_dual], the row buffer
    [W_dual_i] (declared before the loops and never cleared) and
    [count]. *)
Definition off_diagonal_loops : Matrix :=
  let W_dual := resize (setZero W_dual_in) dp_Npm dp_Npm W_dual_junk in
  fst (fst
    (fold_left
       (fun st i =>
          let row_idx_start := i * 4 in
          let inner :=
            fold_left
              (fun st' j =>
                 let col_idx_start := j * 4 in
                 (set_block (fst st') 0 col_idx_start 4 4
                            (W_dual_ij_of i j (snd st')),
                  snd st' + 1))
              (seq (i + 1) (size_t_of_int (dp_N + 1) - (i + 1)))
              (snd (fst st), snd st) in
          (set_block (fst (fst st)) row_idx_start 0 4 dp_Npm (fst inner),
           fst inner, snd inner))
       (seq 0 (size_t_of_int dp_N))
       (W_dual, Zero 4 dp_Npm, 0))).

(** [*W_dual = *W_dual + W_dual->transpose()]: the right-hand side holds
    the transpose of the destination. *)
Definition symmetrized : result Matrix :=
  add_transpose_assign off_diagonal_loops.

(** One iteration of the loop over the diagonal blocks; the state is
    [*W_dual] and [W_diag_sum_33]. *)
Definition diagonal_step (st : Matrix * Matrix) (i : nat)
  : Matrix * Matrix :=
  let W_dual := fst st in
  let idx_start := i * 4 in
  let W_dual_row_sum_last_column :=
    getBlockRowSum W_dual i theta_prepended in
  let W_ii := block W idx_start idx_start 4 4 in
  let W_ii :=
    set_block W_ii 0 3 4 1
      (scale (- coeff theta_prepended 0 i)%Qc
             W_dual_row_sum_last_column) in
  let W_ii :=
    set_block W_ii 3 0 1 4
      (scale (- coeff theta_prepended 0 i)%Qc
             (transpose W_dual_row_sum_last_column)) in
  (set_block W_dual idx_start idx_start 4 4 W_ii,
   add (snd st) (block W_ii 0 0 3 3)).

(** The assertions of one iteration, in the order of the body: the slice
    [A.block(row, 0, 4, A.cols())] and the product [entire_row * vector]
    of [getBlockRowSum], [W.block<4, 4>], [theta_prepended(i)] and
    the block of [W_dual] that is written. *)
Definition diagonal_step_checked (st : Matrix * Matrix) (i : nat)
  : result (Matrix * Matrix) :=
  let W_dual := fst st in
  let idx_start := i * 4 in
  if negb (i + 4 <=? rows W_dual) then Failed IndexOutOfRange
  else if negb (cols W_dual =? cols theta_prepended * 4)
  then Failed SizeMismatch
  else if negb ((idx_start + 4 <=? rows W) && (idx_start + 4 <=? cols W))
  then Failed IndexOutOfRange
  else if negb (i <? cols theta_prepended) then Failed IndexOutOfRange
  else if negb ((idx_start + 4 <=? rows W_dual)
                && (idx_start + 4 <=? cols W_dual))
  then Failed IndexOutOfRange
  else Ok (diagonal_step st i).

Definition diagonal_loop (W_dual : Matrix) : result (Matrix * Matrix) :=
  foldM diagonal_step_checked (seq 0 (size_t_of_int (dp_N + 1)))
        (W_dual, Zero 3 3).

(** The last lines: the mean of the corners, [temp_A] and
    [*W_dual -= temp_A]. *)
Definition W_dual_result (st : Matrix * Matrix) : result Matrix :=
  let W_dual := fst st in
  let W_diag_sum_33 := snd st in
  let W_diag_mean :=
    set_block (Zero 4 4) 0 0 3 3
              (div_scalar W_diag_sum_33 (of_int (dp_N + 1))) in
  let temp_A :=
    fold_left
      (fun temp_A i => set_block temp_A (i * 4) (i * 4) 4 4 W_diag_mean)
      (seq 0 (Z.to_nat (dp_N + 1)))
      (Zero (Z.to_nat (dp_N + 1) * 4) (Z.to_nat (dp_N + 1) * 4)) in
  sub_checked W_dual temp_A.

(** The body in its order: the [assert] on the length of theta, the first
    loops, the product [A_inv * b_W], the second loops, the sum with the
    transpose, the loop over the diagonal blocks and the subtraction of
    the mean. *)
Definition getOptimalDualProjection : result Matrix :=
  if (Z.of_nat (cols theta_prepended) =? dp_N + 1)%Z then
    if first_loops_in_range then
      if s_cols A_inv =? s_rows A_inv then
        if second_loops_in_range then
          W_dual <- symmetrized ;;
          st <- diagonal_loop W_dual ;;
          W_dual_result st
        else Failed IndexOutOfRange
      else Failed SizeMismatch
    else Failed IndexOutOfRange
  else Failed AssertFailed.
End OptimalDualProjection.

(** *** [getLambdaGuess] *)

(** The triplets of a 4 by 4 block placed at (start, start), column by
    column, each coefficient mapped by [f]. *)
Definition block_triplets (start : nat) (f : Qc -> Qc) (B : Matrix)
  : list Triplet :=
  flat_map
    (fun col =>
       map (fun row =>
              mkTriplet (start + row) (start + col) (f (coeff B row col)))
           (seq 0 4))
    (seq 0 4).

(** The 3 by 3 corner written in both branches; [n_coef] is the
    coefficient of the squared norm of the residual. *)
Definition corner_33 (src_i res : Matrix) (n_coef : Qc) : Matrix :=
  let src_i_hatmap := hatmap src_i in
  let res_hatmap := hatmap res in
  sub (sub (add (add (sub (mul src_i_hatmap src_i_hatmap)
                          (scale (lit_0_5 * dot src_i res)%Qc (Identity 3)))
                     (mul (scale lit_0_5 res_hatmap) src_i_hatmap))
                (mul (scale lit_0_5 res) (transpose src_i)))
           (scale (n_coef * squaredNorm res)%Qc (Identity 3)))
      (scale (lit_0_25 * cbar2_)%Qc (Identity 3)).

Section LambdaGuess.
Variables R theta src dst : Matrix.

(** The state of the loop: [topleft_block], [current_block] (both
    declared before the loop) and [sparse_triplets]. *)
Definition lambda_step (st : Matrix * Matrix * list Triplet) (i : nat)
  : result (Matrix * Matrix * list Triplet) :=
  let topleft_block := fst (fst st) in
  let current_block := snd (fst st) in
  let sparse_triplets := snd st in
  src_i <- col src i ;;
  theta_1_i <- at2 theta 1 i ;;
  current_block <-
    (if Qc_ltb 0%Qc theta_1_i then
       dst_i <- col dst i ;;
       let xi := mul (transpose R) (sub dst_i (mul R src_i)) in
       let xi_hatmap := hatmap xi in
       let current_block :=
         set_coeff current_block 3 3
           (- lit_0_75 * squaredNorm xi - lit_0_25 * cbar2_)%Qc in
       let current_block :=
         set_block current_block 0 0 3 3 (corner_33 src_i xi lit_0_75) in
       let current_block :=
         set_block current_block 0 0 3 1
           (mul (scale (- lit_1_5)%Qc xi_hatmap) src_i) in
       Ok (set_block current_block 3 0 1 3
             (transpose (block current_block 0 0 3 1)))
     else
       dst_i <- col dst i ;;
       let phi := mul (transpose R) (sub dst_i (mul R src_i)) in
       let phi_hatmap := hatmap phi in
       let current_block :=
         set_coeff current_block 3 3
           (- lit_0_25 * squaredNorm phi - lit_0_75 * cbar2_)%Qc in
       let current_block :=
         set_block current_block 0 0 3 3 (corner_33 src_i phi lit_0_25) in
       let current_block :=
         set_block current_block 0 0 3 1
           (mul (scale (- lit_0_5)%Qc phi_hatmap) src_i) in
       Ok (set_block current_block 3 0 1 3
             (transpose (block current_block 0 0 3 1)))) ;;
  Ok (add topleft_block current_block,
      current_block,
      sparse_triplets ++ block_triplets (i * 4) Qcopp current_block).

Definition getLambdaGuess : result SparseMatrix :=
  let K := rows theta * cols theta in
  let Npm := 4 * K + 4 in
  st <- foldM lambda_step (seq 0 K) (Zero 4 4, Zero 4 4, []) ;;
  let topleft_block := fst (fst st) in
  let sparse_triplets := snd st in
  Ok (mkSparse Npm Npm
        (sparse_triplets ++ block_triplets 0 (fun v => v) topleft_block)).
End LambdaGuess.

(** *** [certify] *)

(** What the body has built when its (empty) iteration loop ends; the
    body has no [return] statement. *)
Record CertifyState : Type := mkCertifyState {
  cs_M : Matrix;
  cs_exceeded_maxiters : bool;
  cs_suboptim_traj : list Qc
}.

Section Certify.
(** [Eigen::Quaterniond q(R); q.normalize()]: the conversion and the
    normalisation take square roots, and are a function of the
    rotation matrix left abstract. *)
Variable normalized_quaternion : Matrix -> Quaternion.

Variable R_solution src dst : Matrix.
Variable theta : list bool.

(** The content of [J_bar], allocated and written in one block only. *)
Variable J_bar_junk : nat -> nat -> Qc.

Definition cast_double (b : bool) : Qc := if b then 1%Qc else 0%Qc.

Definition certify : result CertifyState :=
  let N := cols src in
  let Npm := 4 + 4 * N in
  (* theta_prepended is default-constructed: 1 row, 0 columns *)
  theta_prepended <-
    comma_init_row 0 (1%Qc :: map cast_double theta) ;;
  let inverse_map := getLinearProjection theta_prepended in
  Q_cost <- getQCost src dst ;;
  let q_solution := normalized_quaternion R_solution in
  let q_solution_vec :=
    of_rows 4 1 [ [ qx q_solution ]; [ qy q_solution ];
                  [ qz q_solution ]; [ qw q_solution ] ] in
  let x := vectorKron (transpose theta_prepended) q_solution_vec in
  let D_omega := getBlockDiagOmega Npm q_solution in
  let Q_bar := mul (transpose D_omega) (mul Q_cost D_omega) in
  let x_bar := mul (transpose D_omega) x in
  let J_bar :=
    set_block (Uninitialized Npm Npm J_bar_junk) 0 0 4 4 (Identity 4) in
  let mu := dot x (mul Q_cost x) in
  lambda_bar_init <- getLambdaGuess R_solution theta_prepended src dst ;;
  Q_bar_mu <- sub_checked Q_bar (scale mu J_bar) ;;
  M <- sub_checked Q_bar_mu (to_dense lambda_bar_init) ;;
  let exceeded_maxiters := false in
  let suboptim_traj : list Qc := [] in
  let iterate :=
    fold_left (fun (u : unit) (iter : nat) => u)
              (seq 0 max_iterations_) tt in
  Ok (mkCertifyState M exceeded_maxiters suboptim_traj).
End Certify.

End WithConfiguration.
End DRSCertifier.

Import Eigen Linalg DRSCertifier.

(** * Vocabulary of the statements and sample inputs *)

Definition symmetric (M : Matrix) : Prop :=
  forall a b, coeff M a b = coeff M b a.

Definition zero_block_00 (M : Matrix) : Prop :=
  forall a b, a < 4 -> b < 4 -> coeff M a b = 0%Qc.

Definition cost_invariant (n : nat) (M : Matrix) : Prop :=
  rows M = n /\ cols M = n /\ symmetric M /\ zero_block_00 M.

(** Two point sets of two points each. *)
Definition sample_src : Matrix :=
  of_cols 3 [ [ of_int 1; of_int 2; of_int 3 ];
              [ of_int 0; of_int (-1); of_int 5 ] ].
Definition sample_dst : Matrix :=
  of_cols 3 [ [ of_int 2; of_int 2; of_int 7 ];
              [ of_int 4; of_int (-1); of_int 1 ] ].

(** theta-prepended vectors with all correspondences inliers. *)
Definition th2 : Matrix := of_rows 1 2 [ [ 1%Qc; 1%Qc ] ].
Definition th3 : Matrix := of_rows 1 3 [ [ 1%Qc; 1%Qc; 1%Qc ] ].
Definition th4 : Matrix := of_rows 1 4 [ [ 1%Qc; 1%Qc; 1%Qc; 1%Qc ] ].

(** The unit quaternion with x = 1. *)
Definition q_unit_x : Quaternion := mkQuaternion 1%Qc 0%Qc 0%Qc 0%Qc.

(** The sum as the claim states it: the slice of the rows 4i .. 4i+3 times
    the Kronecker product of theta with the unit vector e4. *)
Definition block_row_sum_claimed (A : Matrix) (i : nat) (theta : Matrix)
  : Matrix :=
  mul (block A (4 * i) 0 4 (cols A))
      (vectorKron (transpose theta)
                  (of_rows 4 1 [ [ 0%Qc ]; [ 0%Qc ]; [ 0%Qc ]; [ 1%Qc ] ])).

(** A symmetric 8 by 8 matrix with the one pair of coefficients (4,7) and
    (7,4). *)
Definition A8 : Matrix :=
  set_coeff (set_coeff (Zero 8 8) 4 7 1%Qc) 7 4 1%Qc.

(** The row of b_W as the claim states it. *)
Definition b_W_row_claimed (W theta : Matrix) (i j : nat) : Matrix :=
  let theta_ij := (coeff theta 0 i * coeff theta 0 j)%Qc in
  add (mul (of_rows 1 2 [ [ (- theta_ij)%Qc; 1%Qc ] ])
           (vstack (block W (4 * i + 3) (4 * i) 1 3)
                   (block W (4 * j + 3) (4 * i) 1 3)))
      (mul (of_rows 1 2 [ [ (- (1))%Qc; theta_ij ] ])
           (vstack (block W (4 * i + 3) (4 * j) 1 3)
                   (block W (4 * j + 3) (4 * j) 1 3))).

(** A symmetric 8 by 8 matrix (N = 1) with the one pair of coefficients
    (3,0) and (0,3). *)
Definition W8 : Matrix :=
  set_coeff (set_coeff (Zero 8 8) 3 0 1%Qc) 0 3 1%Qc.

(** A symmetric 16 by 16 matrix (N = 3) with the one pair of coefficients
    (0,5) and (5,0), in the blocks (0,1) and (1,0). *)
Definition W16 : Matrix :=
  set_coeff (set_coeff (Zero 16 16) 0 5 1%Qc) 5 0 1%Qc.




(** The column k of a point set, as [col] returns it. *)
Definition point (v : Matrix) (k : nat) : Matrix := block v 0 k (rows v) 1.

(** The values the source assigns to the blocks of the cost matrix for the
    correspondence k: [- 0.5 * P_k + ck / 2 * I] off the diagonal, with
    [ck = 0.5 * (|v1_k|^2 + |v2_k|^2 - cbar2_)], and [- P_k + ck * I] on
    it, with [ck = 0.5 * (|v1_k|^2 + |v2_k|^2 + cbar2_)]. *)
Definition cross_block_value (cbar2_ : Qc) (v1 v2 : Matrix) (k r c : nat)
  : Qc :=
  (- lit_0_5 * coeff (P_k_of (point v1 k) (point v2 k)) r c
   + lit_0_5 * (squaredNorm (point v1 k) + squaredNorm (point v2 k) - cbar2_)
     / of_int 2 * coeff (Identity 4) r c)%Qc.

Definition diagonal_block_value (cbar2_ : Qc) (v1 v2 : Matrix) (k r c : nat)
  : Qc :=
  (- coeff (P_k_of (point v1 k) (point v2 k)) r c
   + lit_0_5 * (squaredNorm (point v1 k) + squaredNorm (point v2 k) + cbar2_)
     * coeff (Identity 4) r c)%Qc.

(** What the loops over Q1 and Q2 have built after n correspondences. *)
Definition Q1_built (cbar2_ : Qc) (v1 v2 : Matrix) (n : nat) (Q1 : Matrix)
  : Prop :=
  (forall k r c, k < n -> r < 4 -> c < 4 ->
     coeff Q1 r (k * 4 + 4 + c) = cross_block_value cbar2_ v1 v2 k r c) /\
  (forall k r c, k < n -> r < 4 -> c < 4 ->
     coeff Q1 (k * 4 + 4 + r) c = cross_block_value cbar2_ v1 v2 k r c) /\
  (forall i j r c, r < 4 -> c < 4 ->
     (1 <= i /\ 1 <= j) \/ (i = 0 /\ j = 0) \/
     (i = 0 /\ n < j) \/ (j = 0 /\ n < i) ->
     coeff Q1 (i * 4 + r) (j * 4 + c) = 0%Qc).

Definition Q2_built (cbar2_ : Qc) (v1 v2 : Matrix) (n : nat) (Q2 : Matrix)
  : Prop :=
  (forall k r c, k < n -> r < 4 -> c < 4 ->
     coeff Q2 (k * 4 + 4 + r) (k * 4 + 4 + c)
     = diagonal_block_value cbar2_ v1 v2 k r c) /\
  (forall i j r c, r < 4 -> c < 4 ->
     i <> j \/ i = 0 \/ n < i ->
     coeff Q2 (i * 4 + r) (j * 4 + c) = 0%Qc).

(** A destination set with one point only. *)
Definition short_dst : Matrix :=
  of_cols 3 [ [ of_int 2; of_int 2; of_int 7 ] ].

(** A quaternion (x, y, z, w) as the column the source builds from it. *)
Definition quaternion_vector (q : Quaternion) : Matrix :=
  of_rows 4 1 [ [ qx q ]; [ qy q ]; [ qz q ]; [ qw q ] ].

(** The matrix R of the map v |-> q v q* for q = (x, y, z, w): the rotation
    matrix of q when q is a unit quaternion. *)
Definition quaternion_rotation (q : Quaternion) : Matrix :=
  let x := qx q in
  let y := qy q in
  let z := qz q in
  let w := qw q in
  of_rows 3 3
    [ [ (w * w + x * x - y * y - z * z)%Qc;
        (of_int 2 * (x * y - w * z))%Qc;
        (of_int 2 * (x * z + w * y))%Qc ];
      [ (of_int 2 * (x * y + w * z))%Qc;
        (w * w - x * x + y * y - z * z)%Qc;
        (of_int 2 * (y * z - w * x))%Qc ];
      [ (of_int 2 * (x * z - w * y))%Qc;
        (of_int 2 * (y * z + w * x))%Qc;
        (w * w - x * x - y * y + z * z)%Qc ] ].

(** A quaternion that is not normalised. *)
Definition q_sample : Quaternion :=
  mkQuaternion (of_int 1) (of_int 2) (of_int (-3)) (of_int 5).

(** The number of pairs (i', j) with i' < i and i' < j < N, and the rank of
    the pair (i, j) among the pairs taken row by row. *)
Fixpoint pair_offset (N i : nat) : nat :=
  match i with
  | O => 0
  | S i' => pair_offset N i' + (N - (i' + 1))
  end.

Definition pair_index (N i j : nat) : nat :=
  pair_offset N i + (j - (i + 1)).

(** The position of a triplet. *)
Definition t_pos (t : Triplet) : nat * nat := (t_row t, t_col t).

(** An empty theta. *)
Definition th0 : Matrix := of_rows 1 0 [ [] ].

(** * Properties *)

(** ** Arithmetic and list helpers *)

Lemma Qc_eqb_true (a b : Qc) : Qc_eqb a b = true -> a = b.
Proof.
  unfold Qc_eqb; intro H.
  apply Qc_is_canon, Qeq_bool_iff, H.
Qed.

Ltac qc_compute := apply Qc_eqb_true; vm_compute; reflexivity.

Lemma sum_upto_ext (n : nat) (f g : nat -> Qc) :
  (forall k, k < n -> f k = g k) -> sum_upto n f = sum_upto n g.
Proof.
  induction n as [|n IH]; intro H; simpl.
  - reflexivity.
  - rewrite IH by (intros; apply H; lia).
    rewrite (H n) by lia. reflexivity.
Qed.

Lemma in_block_true (r0 c0 h w i j : nat) :
  in_block r0 c0 h w i j = true <->
  r0 <= i < r0 + h /\ c0 <= j < c0 + w.
Proof.
  unfold in_block.
  rewrite !andb_true_iff, !Nat.leb_le, !Nat.ltb_lt. lia.
Qed.

Lemma in_block_false (r0 c0 h w i j : nat) :
  in_block r0 c0 h w i j = false <->
  ~ (r0 <= i < r0 + h /\ c0 <= j < c0 + w).
Proof.
  rewrite <- in_block_true. destruct (in_block r0 c0 h w i j); split; intro H.
  - discriminate.
  - exfalso; apply H; reflexivity.
  - intro; discriminate.
  - reflexivity.
Qed.

(** ** The cost matrix *)

(** The columns of [P] that correspond to the positions (r, c) and (c, r)
    of a 4 by 4 matrix coincide. *)
Lemma P_table_columns (n r c : nat) :
  n < 9 -> r < 4 -> c < 4 ->
  nth (r + 4 * c) (nth n P_table []) 0%Z = nth (c + 4 * r) (nth n P_table []) 0%Z.
Proof.
  intros Hn Hr Hc.
  do 9 (destruct n as [|n]; [ do 4 (destruct r as [|r]; [ do 4 (destruct c as [|c]; [ reflexivity | ]); lia | ]); lia | ]).
  lia.
Qed.

Lemma P_columns (n r c : nat) :
  n < 9 -> r < 4 -> c < 4 -> coeff P n (r + 4 * c) = coeff P n (c + 4 * r).
Proof.
  intros Hn Hr Hc. unfold P, of_rows. cbn [coeff].
  change (@nil Qc) with (map of_int []).
  rewrite !map_nth.
  change 0%Qc with (of_int 0).
  rewrite !map_nth.
  f_equal. apply P_table_columns; assumption.
Qed.

Lemma P_k_symmetric (v1k v2k : Matrix) (r c : nat) :
  r < 4 -> c < 4 -> coeff (P_k_of v1k v2k) r c = coeff (P_k_of v1k v2k) c r.
Proof.
  intros Hr Hc. unfold P_k_of, map_to_matrix, mul, transpose.
  cbn [coeff rows cols]. unfold P at 1 3. cbn [rows cols of_rows].
  apply sum_upto_ext. intros k Hk.
  rewrite P_columns by assumption. reflexivity.
Qed.

Ltac block_cases :=
  repeat match goal with
         | |- context [in_block ?a ?b ?c ?d ?e ?f] =>
             let E := fresh "E" in
             destruct (in_block a b c d e f) eqn:E;
             [ apply in_block_true in E | apply in_block_false in E ]
         end.

Lemma Identity_symmetric (n a b : nat) :
  coeff (Identity n) a b = coeff (Identity n) b a.
Proof. cbn [coeff Identity]. rewrite Nat.eqb_sym. reflexivity. Qed.

(** A block update by a symmetric increment: flip the three symmetric
    factors of the left-hand side. *)
Ltac flip_block Hs :=
  match goal with
  | |- (coeff ?Q ?x ?y - _ + _ * coeff (Identity ?n) ?r ?c)%Qc = _ =>
      rewrite (Hs x y), (P_k_symmetric _ _ r c) by lia;
      rewrite (Identity_symmetric n r c); reflexivity
  end.

Section QCostFacts.
Variable cbar2_ : Qc.
Variables v1 v2 : Matrix.

Lemma Q1_step_ok (Q1 : Matrix) (k : nat) :
  k < cols v1 -> k < cols v2 ->
  symmetric Q1 -> zero_block_00 Q1 ->
  exists Q1', Q1_step cbar2_ v1 v2 Q1 k = Ok Q1' /\
              rows Q1' = rows Q1 /\ cols Q1' = cols Q1 /\
              symmetric Q1' /\ zero_block_00 Q1'.
Proof.
  intros H1 H2 Hs Hz. unfold Q1_step, col.
  apply Nat.ltb_lt in H1, H2. rewrite H1, H2. cbn [bind].
  eexists; split; [reflexivity|].
  split; [reflexivity|]. split; [reflexivity|]. split.
  - intros a b. cbn [coeff set_block add sub scale block rows cols].
    block_cases; try lia.
    + flip_block Hs.
    + flip_block Hs.
    + apply Hs.
  - intros a b Ha Hb. cbn [coeff set_block add sub scale block rows cols].
    block_cases; try lia. apply Hz; assumption.
Qed.

Lemma Q2_step_ok (Q2 : Matrix) (k : nat) :
  k < cols v1 -> k < cols v2 ->
  symmetric Q2 -> zero_block_00 Q2 ->
  exists Q2', Q2_step cbar2_ v1 v2 Q2 k = Ok Q2' /\
              rows Q2' = rows Q2 /\ cols Q2' = cols Q2 /\
              symmetric Q2' /\ zero_block_00 Q2'.
Proof.
  intros H1 H2 Hs Hz. unfold Q2_step, col.
  apply Nat.ltb_lt in H1, H2. rewrite H1, H2. cbn [bind].
  eexists; split; [reflexivity|].
  split; [reflexivity|]. split; [reflexivity|]. split.
  - intros a b. cbn [coeff set_block add sub scale block rows cols].
    block_cases; try lia.
    + flip_block Hs.
    + apply Hs.
  - intros a b Ha Hb. cbn [coeff set_block add sub scale block rows cols].
    block_cases; try lia. apply Hz; assumption.
Qed.

(** A monadic loop whose steps all succeed and keep an invariant
    succeeds and keeps it. *)
Lemma foldM_invariant (step : Matrix -> nat -> result Matrix)
      (Inv : Matrix -> Prop) (l : list nat) :
  (forall M k, In k l -> Inv M -> exists M', step M k = Ok M' /\ Inv M') ->
  forall M, Inv M -> exists M', foldM step l M = Ok M' /\ Inv M'.
Proof.
  induction l as [|k l IH]; intros Hstep M HM; simpl.
  - exists M; split; [reflexivity | assumption].
  - destruct (Hstep M k (or_introl eq_refl) HM) as [M1 [E1 I1]].
    rewrite E1. cbn [bind].
    apply IH; [ | assumption ].
    intros M0 k0 Hin. apply Hstep. right; assumption.
Qed.
End QCostFacts.

Lemma Zero_cost_invariant (n : nat) : cost_invariant n (Zero n n).
Proof.
  repeat split; intros; reflexivity.
Qed.

Lemma Q1_loop_ok (cbar2_ : Qc) (v1 v2 : Matrix) (n : nat) :
  cols v1 <= cols v2 ->
  exists Q1, foldM (Q1_step cbar2_ v1 v2) (seq 0 (cols v1)) (Zero n n) = Ok Q1 /\
             cost_invariant n Q1.
Proof.
  intro Hc.
  apply foldM_invariant; [ | apply Zero_cost_invariant ].
  intros M k Hin (Hr & Hcl & Hs & Hz).
  apply in_seq in Hin.
  destruct (Q1_step_ok cbar2_ v1 v2 M k) as (M' & E & Hr' & Hc' & Hs' & Hz');
    try assumption; try lia.
  exists M'; split; [assumption|].
  repeat split; try assumption; congruence.
Qed.

Lemma Q2_loop_ok (cbar2_ : Qc) (v1 v2 : Matrix) (n : nat) :
  cols v1 <= cols v2 ->
  exists Q2, foldM (Q2_step cbar2_ v1 v2) (seq 0 (cols v1)) (Zero n n) = Ok Q2 /\
             cost_invariant n Q2.
Proof.
  intro Hc.
  apply foldM_invariant; [ | apply Zero_cost_invariant ].
  intros M k Hin (Hr & Hcl & Hs & Hz).
  apply in_seq in Hin.
  destruct (Q2_step_ok cbar2_ v1 v2 M k) as (M' & E & Hr' & Hc' & Hs' & Hz');
    try assumption; try lia.
  exists M'; split; [assumption|].
  repeat split; try assumption; congruence.
Qed.

(** C4. For source and destination sets of one common length N >= 1,
    [getQCost] returns a matrix Q of size 4 + 4N that is exactly symmetric
    (it is the plain sum Q1 + Q2, nothing symmetrizes it afterwards) and
    whose block (0,0) is the 4 by 4 zero matrix. *)
Theorem getQCost_symmetric_zero_block (cbar2_ : Qc) (v1 v2 : Matrix) :
  cols v1 = cols v2 ->
  1 <= cols v1 ->
  exists Q,
    getQCost cbar2_ v1 v2 = Ok Q /\
    rows Q = 4 + 4 * cols v1 /\
    cols Q = 4 + 4 * cols v1 /\
    (forall a b, a < rows Q -> b < cols Q -> coeff Q a b = coeff Q b a) /\
    (forall a b, a < 4 -> b < 4 -> coeff Q a b = 0%Qc).
Proof.
  intros Hlen HN. unfold getQCost.
  destruct (Q1_loop_ok cbar2_ v1 v2 (4 + 4 * cols v1))
    as (Q1 & E1 & R1 & C1 & S1 & Z1); [lia|].
  destruct (Q2_loop_ok cbar2_ v1 v2 (4 + 4 * cols v1))
    as (Q2 & E2 & R2 & C2 & S2 & Z2); [lia|].
  rewrite E1. cbn [bind]. rewrite E2. cbn [bind].
  eexists; split; [reflexivity|].
  cbn [rows cols coeff add].
  split; [assumption|]. split; [assumption|]. split.
  - intros a b _ _. rewrite (S1 a b), (S2 a b). reflexivity.
  - intros a b Ha Hb. rewrite (Z1 a b), (Z2 a b) by assumption. ring.
Qed.

(** The helpers on small inputs. *)
Example hatmap_sample :
  mat_eqb (hatmap (of_cols 3 [ [ of_int 1; of_int 2; of_int 3 ] ]))
          (of_rows 3 3 [ [ of_int 0; of_int (-3); of_int 2 ];
                         [ of_int 3; of_int 0; of_int (-1) ];
                         [ of_int (-2); of_int 1; of_int 0 ] ]) = true.
Proof. vm_compute; reflexivity. Qed.

Example vectorKron_sample :
  mat_eqb (vectorKron (of_cols 2 [ [ of_int 2; of_int 5 ] ])
                      (of_cols 4 [ [ 0%Qc; 0%Qc; 0%Qc; 1%Qc ] ]))
          (of_cols 8 [ [ 0%Qc; 0%Qc; 0%Qc; of_int 2;
                         0%Qc; 0%Qc; 0%Qc; of_int 5 ] ]) = true.
Proof. vm_compute; reflexivity. Qed.

(** On the sample the blocks (0,1) and (1,1) start with
    -P_0(0,0)/2 + c_0/2 = 23/2 + 35/2 and -P_0(0,0) + c_0' = 23 + 36. *)
Example getQCost_sample :
  exists Q, getQCost 1%Qc sample_src sample_dst = Ok Q /\
            coeff Q 0 4 = of_int 29 /\ coeff Q 4 0 = of_int 29 /\
            coeff Q 4 4 = of_int 59 /\ coeff Q 4 8 = 0%Qc.
Proof.
  eexists; split; [reflexivity|].
  repeat split; qc_compute.
Qed.

Lemma getQCost_symmetric_zero_block_witness :
  cols sample_src = cols sample_dst /\
  1 <= cols sample_src /\
  exists Q,
    getQCost 1%Qc sample_src sample_dst = Ok Q /\
    rows Q = 4 + 4 * cols sample_src /\
    cols Q = 4 + 4 * cols sample_src /\
    (forall a b, a < rows Q -> b < cols Q -> coeff Q a b = coeff Q b a) /\
    (forall a b, a < 4 -> b < 4 -> coeff Q a b = 0%Qc).
Proof.
  split; [reflexivity|]. split; [simpl; lia|].
  apply (getQCost_symmetric_zero_block 1%Qc sample_src sample_dst);
    [reflexivity | simpl; lia].
Defined.

(** ** The linear projection *)

Lemma s_coeff_all_zero (A : SparseMatrix) :
  Forall (fun t => t_val t = 0%Qc) (s_triplets A) ->
  forall i j, s_coeff A i j = 0%Qc.
Proof.
  intros H i j. unfold s_coeff.
  induction H as [|t l Ht Hl IH]; simpl.
  - reflexivity.
  - rewrite IH, Ht. destruct (_ && _); [ring | reflexivity].
Qed.

Lemma Forall_flat_map {A B : Type} (P : B -> Prop) (f : A -> list B)
      (l : list A) :
  (forall a, In a l -> Forall P (f a)) -> Forall P (flat_map f l).
Proof.
  induction l as [|a l IH]; intro H; simpl.
  - constructor.
  - apply Forall_app; split.
    + apply H; left; reflexivity.
    + apply IH; intros; apply H; right; assumption.
Qed.

(** Wrapping changes an [int] by a multiple of 2^32. *)
Lemma int_wrap_spec (z : Z) :
  exists k, int_wrap z = (z - 4294967296 * k)%Z.
Proof.
  exists ((z + 2 ^ 31) / 2 ^ 32)%Z. unfold int_wrap.
  rewrite Z.mod_eq by lia.
  change (2 ^ 32)%Z with 4294967296%Z. change (2 ^ 31)%Z with 2147483648%Z.
  lia.
Qed.

Lemma int_wrap_small (z : Z) :
  (- 2147483648 <= z < 2147483648)%Z -> int_wrap z = z.
Proof.
  intro H. unfold int_wrap.
  change (2 ^ 32)%Z with 4294967296%Z. change (2 ^ 31)%Z with 2147483648%Z.
  rewrite Z.mod_small by lia. lia.
Qed.

Lemma quot_1_zero (d : Z) : d <> 1%Z -> d <> (-1)%Z -> Z.quot 1 d = 0%Z.
Proof.
  intros H1 H2. destruct (Z.lt_trichotomy d 0) as [Hn|[->|Hp]].
  - replace d with (- (- d))%Z by lia.
    rewrite Z.quot_opp_r by lia.
    rewrite Z.quot_small by lia. reflexivity.
  - reflexivity.
  - apply Z.quot_small. lia.
Qed.

(** The integer quotient of the source: [1 / (2 * N0 + 6)] is 0, with or
    without wrap-around, since the divisor is even. *)
Lemma y_is_zero (N0 : Z) : Z.quot 1 (int_wrap (2 * N0 + 6)) = 0%Z.
Proof.
  destruct (int_wrap_spec (2 * N0 + 6)) as [k Hk].
  apply quot_1_zero; lia.
Qed.

Lemma row_i_triplets_zero (theta mat2vec : Matrix) (N i j : nat) :
  Forall (fun t => t_val t = 0%Qc) (row_i_triplets theta mat2vec 0 N i j).
Proof.
  unfold row_i_triplets. apply Forall_flat_map. intros p _.
  destruct (_ && _); [ | constructor ].
  destruct (p <? i); repeat constructor; cbn [t_val];
    change (of_int (- 0)) with 0%Qc; change (of_int 0) with 0%Qc; ring.
Qed.

Lemma row_j_triplets_zero (theta mat2vec : Matrix) (N i j : nat) :
  Forall (fun t => t_val t = 0%Qc) (row_j_triplets theta mat2vec 0 N i j).
Proof.
  unfold row_j_triplets. apply Forall_flat_map. intros p _.
  destruct (_ && _); [ | constructor ].
  destruct (p <? j); repeat constructor; cbn [t_val];
    change (of_int (- 0)) with 0%Qc; change (of_int 0) with 0%Qc; ring.
Qed.

(** What [getLinearProjection] builds: [y] and [x] are [int]s and the
    quotient [1 / (2 * N0 + 6)] truncates to 0, so every triplet carries the
    value 0 and every coefficient of [A_inv], diagonal ones included, is 0. *)
Lemma getLinearProjection_triplets_zero (theta : Matrix) :
  Forall (fun t => t_val t = 0%Qc) (s_triplets (getLinearProjection theta)).
Proof.
  unfold getLinearProjection. cbn [s_triplets].
  rewrite y_is_zero.
  apply Forall_app; split.
  - apply Forall_flat_map; intros i _.
    apply Forall_flat_map; intros j _.
    apply Forall_app; split;
      [ apply row_i_triplets_zero | apply row_j_triplets_zero ].
  - rewrite Z.mul_0_r. change (int_wrap 0) with 0%Z.
    apply Forall_forall. intros t Ht.
    apply in_map_iff in Ht. destruct Ht as (k & <- & _). reflexivity.
Qed.

(** C1. The claim asks for a nonzero diagonal constant and off-diagonal
    entries scaled by 1/(2N+6).  In the source [y] and [x] are [int]s, so
    for every theta-prepended vector every coefficient of the matrix that
    [getLinearProjection] returns is 0, the diagonal ones included. *)
Theorem getLinearProjection_all_zero (theta : Matrix) (i j : nat) :
  s_coeff (getLinearProjection theta) i j = 0%Qc.
Proof.
  apply s_coeff_all_zero, getLinearProjection_triplets_zero.
Qed.

(** For N = 2 the matrix is 3 by 3, it has triplets on the diagonal and
    off it, and its first diagonal coefficient is 0. *)
Example getLinearProjection_sample :
  s_rows (getLinearProjection th3) = 3 /\
  s_cols (getLinearProjection th3) = 3 /\
  map (fun t => (t_row t, t_col t)) (s_triplets (getLinearProjection th3)) =
    [ (1, 0); (2, 0); (0, 1); (2, 1); (0, 2); (1, 2); (0, 0); (1, 1); (2, 2) ] /\
  s_coeff (getLinearProjection th3) 0 0 = 0%Qc.
Proof.
  repeat split; first [ vm_compute; reflexivity | qc_compute ].
Qed.

(** ** The quaternion embedding *)

(** C6. The claim asks that D^T D be the identity for a unit quaternion.
    At the unit quaternion x = 1 the matrix of [getOmega1] has one nonzero
    coefficient, and D = [getBlockDiagOmega 8 q] gives a D^T D whose
    diagonal holds both 0 and 1: neither the identity nor a multiple of
    it. *)
Theorem getBlockDiagOmega_not_orthogonal :
  (qx q_unit_x * qx q_unit_x + qy q_unit_x * qy q_unit_x +
   qz q_unit_x * qz q_unit_x + qw q_unit_x * qw q_unit_x = 1)%Qc /\
  mat_eqb (getOmega1 q_unit_x)
          (of_rows 4 4 [ [ 0%Qc; 0%Qc; 0%Qc; 1%Qc ]; []; []; [] ]) = true /\
  coeff (mul (transpose (getBlockDiagOmega 8 q_unit_x))
             (getBlockDiagOmega 8 q_unit_x)) 0 0 = 0%Qc /\
  coeff (mul (transpose (getBlockDiagOmega 8 q_unit_x))
             (getBlockDiagOmega 8 q_unit_x)) 3 3 = 1%Qc /\
  mat_eqb (mul (transpose (getBlockDiagOmega 8 q_unit_x))
               (getBlockDiagOmega 8 q_unit_x))
          (Identity 8) = false.
Proof.
  split; [qc_compute|].
  split; [vm_compute; reflexivity|].
  split; [qc_compute|].
  split; [qc_compute|].
  vm_compute; reflexivity.
Qed.

(** ** The block row sum *)

(** C8. [getBlockRowSum] takes its slice at the row [row], not at
    [4 * row]: for the block index 1 it sums the rows 1 .. 4 where the
    claim sums the rows 4 .. 7, and on [A8] it returns (0,0,0,1) where the
    claimed sum is (1,0,0,0). *)
Theorem getBlockRowSum_wrong_slice :
  mat_eqb (getBlockRowSum A8 1 th2)
          (of_rows 4 1 [ [ 0%Qc ]; [ 0%Qc ]; [ 0%Qc ]; [ 1%Qc ] ]) = true /\
  mat_eqb (block_row_sum_claimed A8 1 th2)
          (of_rows 4 1 [ [ 1%Qc ]; [ 0%Qc ]; [ 0%Qc ]; [ 0%Qc ] ]) = true /\
  coeff (getBlockRowSum A8 1 th2) 0 0 <> coeff (block_row_sum_claimed A8 1 th2) 0 0.
Proof.
  split; [vm_compute; reflexivity|].
  split; [vm_compute; reflexivity|].
  intro H.
  assert (E : Qc_eqb (coeff (getBlockRowSum A8 1 th2) 0 0)
                     (coeff (block_row_sum_claimed A8 1 th2) 0 0) = false)
    by (vm_compute; reflexivity).
  rewrite H in E. unfold Qc_eqb in E.
  rewrite (proj2 (Qeq_bool_iff _ _) (Qeq_refl _)) in E. discriminate.
Qed.

(** The slice is the rows [row .. row + 3]: the rows of the block only
    for the block index 0. *)
Lemma getBlockRowSum_rows (A : Matrix) (row : nat) (theta : Matrix) (r : nat) :
  coeff (getBlockRowSum A row theta) r 0 =
  sum_upto (cols A)
    (fun k => (coeff A (row + r) k *
               coeff (vectorKron (transpose theta)
                        (set_coeff (Zero 4 1) 3 0 1%Qc)) k 0)%Qc).
Proof. reflexivity. Qed.

(** The projection does overwrite the last column of the diagonal block i
    with [- theta_i] times the sum that [getBlockRowSum] returned. *)
Lemma diagonal_step_last_column (W theta : Matrix) (st : Matrix * Matrix)
      (i r : nat) :
  r < 4 ->
  coeff (fst (diagonal_step W theta st i)) (i * 4 + r) (i * 4 + 3) =
  (- coeff theta 0 i * coeff (getBlockRowSum (fst st) i theta) r 0)%Qc.
Proof.
  intro Hr. unfold diagonal_step.
  cbn [fst coeff set_block scale transpose block rows cols].
  block_cases; try lia.
  - replace (i * 4 + r - i * 4 - 3) with 0 by lia.
    replace (i * 4 + 3 - i * 4 - 0) with r by lia.
    reflexivity.
  - replace (i * 4 + r - i * 4 - 0) with r by lia.
    replace (i * 4 + 3 - i * 4 - 3) with 0 by lia.
    reflexivity.
Qed.

(** ** The dual projection: the right-hand side b_W *)

(** What the source computes: [temp_A] holds [-1, theta_ij] when it is
    used, [temp_B] holds what its storage held, and the second row of
    both stacks is the row 4i+3 again ([col_idx_end = i * 4 + 3]). *)
Lemma y_b_Wt_coeff (W theta : Matrix) (g : nat -> nat -> Qc * Qc)
      (i j c : nat) :
  coeff (y_b_Wt W theta g i j) 0 c =
  ((0 + - (1) * coeff W (i * 4 + 3 + 0) (i * 4 + c)
      + coeff theta 0 i * coeff theta 0 j * coeff W (i * 4 + 3 + 0) (i * 4 + c))
   + (0 + fst (g i j) * coeff W (i * 4 + 3 + 0) (j * 4 + c)
        + snd (g i j) * coeff W (i * 4 + 3 + 0) (j * 4 + c)))%Qc.
Proof. reflexivity. Qed.

(** C5. On the symmetric [W8] with theta = (1, 1), the row of b_W for the
    pair (0, 1) starts with 0 in the source, whatever [temp_B] holds, where
    the claimed combination starts with -1. *)
Theorem b_W_row_differs_from_claim (g : nat -> nat -> Qc * Qc) :
  mat_eqb W8 (transpose W8) = true /\
  coeff (compute_b_W W8 th2 (getLinearProjection th2) g) 0 0 = 0%Qc /\
  coeff (b_W_row_claimed W8 th2 0 1) 0 0 = of_int (-1).
Proof.
  split; [vm_compute; reflexivity|]. split.
  - change (coeff (compute_b_W W8 th2 (getLinearProjection th2) g) 0 0)
      with (coeff (y_b_Wt W8 th2 g 0 1) 0 0).
    rewrite y_b_Wt_coeff.
    change (coeff W8 (0 * 4 + 3 + 0) (1 * 4 + 0)) with 0%Qc.
    change (coeff W8 (0 * 4 + 3 + 0) (0 * 4 + 0)) with 1%Qc.
    change (coeff th2 0 0) with 1%Qc.
    change (coeff th2 0 1) with 1%Qc.
    ring.
  - qc_compute.
Qed.

(** ** The dual projection: idempotence *)

(** C2. The claim compares the projection applied twice with the
    projection applied once.  For N = 3, theta = (1,1,1,1), [A_inv] built
    by [getLinearProjection] and the symmetric [W16], every assertion of
    the body up to the second loops holds, and the call then stops at
    [*W_dual = *W_dual + W_dual->transpose()], whose right-hand side holds
    the transpose of its destination: no matrix is returned, so neither
    side of the claimed equation has a value.  This holds whatever the
    uninitialised [temp_B] and the caller's [W_dual] hold. *)
Theorem getOptimalDualProjection_no_projection
        (g : nat -> nat -> Qc * Qc) (W_dual_in : Matrix)
        (junk : nat -> nat -> Qc) :
  mat_eqb W16 (transpose W16) = true /\
  first_loops_in_range W16 (getLinearProjection th4) = true /\
  second_loops_in_range W16 (getLinearProjection th4) = true /\
  getOptimalDualProjection W16 th4 (getLinearProjection th4)
                           g W_dual_in junk
  = Failed TransposeAliasing.
Proof.
  split; [vm_compute; reflexivity|].
  split; [vm_compute; reflexivity|].
  split; [vm_compute; reflexivity|].
  vm_compute. reflexivity.
Qed.

(** ** The initial guess *)

(** [theta(1, i)] reads the row 1 of a vector that has the row 0 only. *)
Lemma theta_row_1_out_of_range (theta : Matrix) (i : nat) :
  rows theta = 1 -> at2 theta 1 i = Failed IndexOutOfRange.
Proof.
  intro H. unfold at2. rewrite H. reflexivity.
Qed.

Lemma lambda_step_out_of_range (cbar2_ : Qc) (R theta src dst : Matrix)
      (st : Matrix * Matrix * list Triplet) (i : nat) :
  rows theta = 1 ->
  lambda_step cbar2_ R theta src dst st i = Failed IndexOutOfRange.
Proof.
  intro H. unfold lambda_step.
  destruct (col src i) as [src_i|f] eqn:E; cbn [bind].
  - rewrite theta_row_1_out_of_range by assumption. reflexivity.
  - unfold col in E. destruct (i <? cols src); congruence.
Qed.

(** C7. The claim describes the matrix [getLambdaGuess] returns for a
    theta-prepended row vector.  The loop body reads [theta(1, i)], the
    row 1 of a one-row vector, so for every theta with at least one
    column the call fails in its first iteration and returns no matrix. *)
Theorem getLambdaGuess_out_of_range (cbar2_ : Qc) (R theta src dst : Matrix) :
  rows theta = 1 ->
  1 <= cols theta ->
  getLambdaGuess cbar2_ R theta src dst = Failed IndexOutOfRange.
Proof.
  intros Hr Hc. unfold getLambdaGuess.
  rewrite Hr, Nat.mul_1_l.
  destruct (cols theta) as [|K]; [lia|].
  cbn [seq foldM].
  rewrite lambda_step_out_of_range by assumption.
  reflexivity.
Qed.

Lemma getLambdaGuess_out_of_range_witness :
  rows th3 = 1 /\
  1 <= cols th3 /\
  getLambdaGuess 1%Qc (Identity 3) th3 sample_src sample_dst
    = Failed IndexOutOfRange.
Proof.
  split; [reflexivity|]. split; [simpl; lia|].
  apply (getLambdaGuess_out_of_range 1%Qc (Identity 3) th3 sample_src sample_dst);
    [reflexivity | simpl; lia].
Defined.

(** C3. The claim asks that the projection return the initial guess
    unchanged.  For the identity rotation, theta = (1,1,1) and two
    correspondences, the guess followed by the projection yields no matrix
    at all: the guess fails on its read of [theta(1, 0)]. *)
Theorem initial_guess_has_no_projection
        (g : nat -> nat -> Qc * Qc) (W_dual : Matrix)
        (junk : nat -> nat -> Qc) :
  (Lambda0 <- getLambdaGuess 1%Qc (Identity 3) th3 sample_src sample_dst ;;
   getOptimalDualProjection (to_dense Lambda0) th3 (getLinearProjection th3)
                            g W_dual junk)
  = Failed IndexOutOfRange.
Proof.
  vm_compute. reflexivity.
Qed.

(** ** [certify] *)

(** The comma initializer succeeds on a vector that has room. *)
Example comma_init_row_sized :
  exists v, comma_init_row 3 [ 1%Qc; 0%Qc; 1%Qc ] = Ok v /\ cols v = 3.
Proof. eexists; split; reflexivity. Qed.

(** It fails on a vector without columns, whatever is streamed. *)
Lemma comma_init_row_empty (vals : list Qc) :
  comma_init_row 0 vals = Failed CommaInitializerRange.
Proof. reflexivity. Qed.

(** C10. [theta_prepended] is default-constructed, so it has no column
    when [<<] streams into it: the first statement of [certify] that
    touches a matrix fails, for every input, and nothing after it runs. *)
Theorem certify_fails_at_comma_initializer
        (cbar2_ : Qc) (max_iterations_ : nat)
        (normalized_quaternion : Matrix -> Quaternion)
        (R_solution src dst : Matrix) (theta : list bool)
        (J_bar_junk : nat -> nat -> Qc) :
  certify cbar2_ max_iterations_ normalized_quaternion
          R_solution src dst theta J_bar_junk
  = Failed CommaInitializerRange.
Proof.
  unfold certify.
  rewrite comma_init_row_empty.
  reflexivity.
Qed.




(** ** The cost matrix: its blocks *)

Lemma foldM_app {A S : Type} (step : S -> A -> result S) (l1 l2 : list A)
      (s : S) :
  foldM step (l1 ++ l2) s = (s' <- foldM step l1 s ;; foldM step l2 s').
Proof.
  revert s. induction l1 as [|a l1 IH]; intro s; simpl.
  - reflexivity.
  - destruct (step s a) as [s1|f]; cbn [bind]; [apply IH | reflexivity].
Qed.

Lemma col_in_range (v : Matrix) (k : nat) :
  k < cols v -> col v k = Ok (point v k).
Proof.
  intro H. unfold col. apply Nat.ltb_lt in H. rewrite H. reflexivity.
Qed.

Lemma col_out_of_range (v : Matrix) (k : nat) :
  cols v <= k -> col v k = Failed IndexOutOfRange.
Proof.
  intro H. unfold col. apply Nat.ltb_ge in H. rewrite H. reflexivity.
Qed.

Section QCostBlocks.
Variable cbar2_ : Qc.
Variables v1 v2 : Matrix.

Lemma Q1_built_zero (m : nat) : Q1_built cbar2_ v1 v2 0 (Zero m m).
Proof.
  repeat split; intros; try lia; reflexivity.
Qed.

Lemma Q2_built_zero (m : nat) : Q2_built cbar2_ v1 v2 0 (Zero m m).
Proof.
  repeat split; intros; try lia; reflexivity.
Qed.

Lemma Q1_step_built (n : nat) (Q1 : Matrix) :
  n < cols v1 -> n < cols v2 ->
  Q1_built cbar2_ v1 v2 n Q1 ->
  exists Q1', Q1_step cbar2_ v1 v2 Q1 n = Ok Q1' /\
              Q1_built cbar2_ v1 v2 (S n) Q1'.
Proof.
  intros H1 H2 (Hu & Hl & Hz). unfold Q1_step.
  rewrite (col_in_range v2 n H2), (col_in_range v1 n H1). cbn [bind].
  eexists; split; [reflexivity|]. split; [|split].
  - intros k r c Hk Hr Hc.
    cbn [coeff set_block add sub scale block rows cols].
    block_cases; try lia.
    + assert (k = n) by lia. subst k.
      replace (0 + (r - 0)) with (0 * 4 + r) by lia.
      replace (n * 4 + 4 + (n * 4 + 4 + c - (n * 4 + 4))) with (S n * 4 + c) by lia.
      rewrite (Hz 0 (S n) r c) by lia.
      replace (r - 0) with r by lia.
      replace (n * 4 + 4 + c - (n * 4 + 4)) with c by lia.
      unfold cross_block_value. ring.
    + apply Hu; lia.
  - intros k r c Hk Hr Hc.
    cbn [coeff set_block add sub scale block rows cols].
    block_cases; try lia.
    + assert (k = n) by lia. subst k.
      replace (n * 4 + 4 + (n * 4 + 4 + r - (n * 4 + 4))) with (S n * 4 + r) by lia.
      replace (0 + (c - 0)) with (0 * 4 + c) by lia.
      rewrite (Hz (S n) 0 r c) by lia.
      replace (c - 0) with c by lia.
      replace (n * 4 + 4 + r - (n * 4 + 4)) with r by lia.
      unfold cross_block_value. ring.
    + apply Hl; lia.
  - intros i j r c Hr Hc Hij.
    cbn [coeff set_block add sub scale block rows cols].
    block_cases; try lia.
    apply Hz; lia.
Qed.

Lemma Q2_step_built (n : nat) (Q2 : Matrix) :
  n < cols v1 -> n < cols v2 ->
  Q2_built cbar2_ v1 v2 n Q2 ->
  exists Q2', Q2_step cbar2_ v1 v2 Q2 n = Ok Q2' /\
              Q2_built cbar2_ v1 v2 (S n) Q2'.
Proof.
  intros H1 H2 (Hd & Hz). unfold Q2_step.
  rewrite (col_in_range v2 n H2), (col_in_range v1 n H1). cbn [bind].
  eexists; split; [reflexivity|]. split.
  - intros k r c Hk Hr Hc.
    cbn [coeff set_block add sub scale block rows cols].
    block_cases; try lia.
    + assert (k = n) by lia. subst k.
      replace (n * 4 + 4 + (n * 4 + 4 + r - (n * 4 + 4))) with (S n * 4 + r) by lia.
      replace (n * 4 + 4 + (n * 4 + 4 + c - (n * 4 + 4))) with (S n * 4 + c) by lia.
      rewrite (Hz (S n) (S n) r c) by lia.
      replace (n * 4 + 4 + r - (n * 4 + 4)) with r by lia.
      replace (n * 4 + 4 + c - (n * 4 + 4)) with c by lia.
      unfold diagonal_block_value. ring.
    + apply Hd; lia.
  - intros i j r c Hr Hc Hij.
    cbn [coeff set_block add sub scale block rows cols].
    block_cases; try lia.
    apply Hz; lia.
Qed.

Lemma Q1_loop_built (m n : nat) :
  n <= cols v1 -> n <= cols v2 ->
  exists Q1, foldM (Q1_step cbar2_ v1 v2) (seq 0 n) (Zero m m) = Ok Q1 /\
             Q1_built cbar2_ v1 v2 n Q1.
Proof.
  induction n as [|n IH]; intros H1 H2.
  - exists (Zero m m). split; [reflexivity | apply Q1_built_zero].
  - destruct IH as (Q1 & E & B); try lia.
    destruct (Q1_step_built n Q1) as (Q1' & E' & B'); try lia; try assumption.
    exists Q1'. split; [|assumption].
    rewrite seq_S, foldM_app, E. cbn [bind plus foldM]. rewrite E'. reflexivity.
Qed.

Lemma Q2_loop_built (m n : nat) :
  n <= cols v1 -> n <= cols v2 ->
  exists Q2, foldM (Q2_step cbar2_ v1 v2) (seq 0 n) (Zero m m) = Ok Q2 /\
             Q2_built cbar2_ v1 v2 n Q2.
Proof.
  induction n as [|n IH]; intros H1 H2.
  - exists (Zero m m). split; [reflexivity | apply Q2_built_zero].
  - destruct IH as (Q2 & E & B); try lia.
    destruct (Q2_step_built n Q2) as (Q2' & E' & B'); try lia; try assumption.
    exists Q2'. split; [|assumption].
    rewrite seq_S, foldM_app, E. cbn [bind plus foldM]. rewrite E'. reflexivity.
Qed.

(** The whole matrix, when the destination set has a column for every
    source column. *)
Lemma getQCost_built :
  cols v1 <= cols v2 ->
  exists Q1 Q2,
    getQCost cbar2_ v1 v2 = Ok (add Q1 Q2) /\
    rows Q1 = 4 + 4 * cols v1 /\ cols Q1 = 4 + 4 * cols v1 /\
    Q1_built cbar2_ v1 v2 (cols v1) Q1 /\
    Q2_built cbar2_ v1 v2 (cols v1) Q2.
Proof.
  intro H. unfold getQCost.
  destruct (Q1_loop_built (4 + 4 * cols v1) (cols v1)) as (Q1 & E1 & B1); try lia.
  destruct (Q2_loop_built (4 + 4 * cols v1) (cols v1)) as (Q2 & E2 & B2); try lia.
  destruct (Q1_loop_ok cbar2_ v1 v2 (4 + 4 * cols v1) H)
    as (Q1' & E1' & R1 & C1 & _).
  assert (Q1' = Q1) by congruence. subst Q1'.
  exists Q1, Q2. rewrite E1. cbn [bind]. rewrite E2. cbn [bind].
  repeat split; try assumption; apply B1 || apply B2.
Qed.
End QCostBlocks.

(** X1. When the destination set has a column for every source column,
    the blocks (0,k+1) and (k+1,0) of the cost matrix both hold
    [- 0.5 * P_k + ck / 2 * I] for the correspondence k. *)
Theorem getQCost_cross_blocks (cbar2_ : Qc) (v1 v2 : Matrix) (k r c : nat) :
  cols v1 <= cols v2 ->
  k < cols v1 -> r < 4 -> c < 4 ->
  exists Q,
    getQCost cbar2_ v1 v2 = Ok Q /\
    coeff Q r (4 * k + 4 + c) = cross_block_value cbar2_ v1 v2 k r c /\
    coeff Q (4 * k + 4 + r) c = cross_block_value cbar2_ v1 v2 k r c.
Proof.
  intros H Hk Hr Hc.
  destruct (getQCost_built cbar2_ v1 v2 H)
    as (Q1 & Q2 & E & _ & _ & (Hu & Hl & _) & (_ & Hz)).
  exists (add Q1 Q2). split; [assumption|].
  cbn [coeff add].
  replace (4 * k + 4 + c) with (k * 4 + 4 + c) by lia.
  replace (4 * k + 4 + r) with (k * 4 + 4 + r) by lia.
  rewrite Hu, Hl by assumption.
  replace (coeff Q2 r (k * 4 + 4 + c)) with 0%Qc.
  - replace (coeff Q2 (k * 4 + 4 + r) c) with 0%Qc; [split; ring|].
    symmetry.
    replace (k * 4 + 4 + r) with (S k * 4 + r) by lia.
    replace c with (0 * 4 + c) at 1 by lia.
    apply Hz; lia.
  - symmetry.
    replace (k * 4 + 4 + c) with (S k * 4 + c) by lia.
    replace r with (0 * 4 + r) at 1 by lia.
    apply Hz; lia.
Qed.

Lemma getQCost_cross_blocks_witness :
  cols sample_src <= cols sample_dst /\ 1 < cols sample_src /\ 2 < 4 /\ 3 < 4 /\
  exists Q,
    getQCost 1%Qc sample_src sample_dst = Ok Q /\
    coeff Q 2 (4 * 1 + 4 + 3) = cross_block_value 1%Qc sample_src sample_dst 1 2 3 /\
    coeff Q (4 * 1 + 4 + 2) 3 = cross_block_value 1%Qc sample_src sample_dst 1 2 3.
Proof.
  split; [simpl; lia|]. split; [simpl; lia|]. split; [lia|]. split; [lia|].
  apply (getQCost_cross_blocks 1%Qc sample_src sample_dst 1 2 3);
    simpl; lia.
Defined.

(** X2. Under the same condition the diagonal block (k+1,k+1) of the cost
    matrix holds [- P_k + ck * I], with the [ck] of the second loop. *)
Theorem getQCost_diagonal_blocks (cbar2_ : Qc) (v1 v2 : Matrix) (k r c : nat) :
  cols v1 <= cols v2 ->
  k < cols v1 -> r < 4 -> c < 4 ->
  exists Q,
    getQCost cbar2_ v1 v2 = Ok Q /\
    coeff Q (4 * k + 4 + r) (4 * k + 4 + c)
    = diagonal_block_value cbar2_ v1 v2 k r c.
Proof.
  intros H Hk Hr Hc.
  destruct (getQCost_built cbar2_ v1 v2 H)
    as (Q1 & Q2 & E & _ & _ & (_ & _ & Hz) & (Hd & _)).
  exists (add Q1 Q2). split; [assumption|].
  cbn [coeff add].
  replace (4 * k + 4 + c) with (k * 4 + 4 + c) by lia.
  replace (4 * k + 4 + r) with (k * 4 + 4 + r) by lia.
  rewrite Hd by assumption.
  replace (coeff Q1 (k * 4 + 4 + r) (k * 4 + 4 + c)) with 0%Qc; [ring|].
  symmetry.
  replace (k * 4 + 4 + r) with (S k * 4 + r) by lia.
  replace (k * 4 + 4 + c) with (S k * 4 + c) by lia.
  apply Hz; lia.
Qed.

Lemma getQCost_diagonal_blocks_witness :
  cols sample_src <= cols sample_dst /\ 1 < cols sample_src /\ 2 < 4 /\ 3 < 4 /\
  exists Q,
    getQCost 1%Qc sample_src sample_dst = Ok Q /\
    coeff Q (4 * 1 + 4 + 2) (4 * 1 + 4 + 3)
    = diagonal_block_value 1%Qc sample_src sample_dst 1 2 3.
Proof.
  split; [simpl; lia|]. split; [simpl; lia|]. split; [lia|]. split; [lia|].
  apply (getQCost_diagonal_blocks 1%Qc sample_src sample_dst 1 2 3);
    simpl; lia.
Defined.

(** X3. Two different correspondences never share a block: every block
    (i,j) of the cost matrix with i <> j, i >= 1 and j >= 1 is zero. *)
Theorem getQCost_other_blocks_zero (cbar2_ : Qc) (v1 v2 : Matrix)
        (i j r c : nat) :
  cols v1 <= cols v2 ->
  1 <= i -> 1 <= j -> i <> j -> r < 4 -> c < 4 ->
  exists Q,
    getQCost cbar2_ v1 v2 = Ok Q /\
    coeff Q (4 * i + r) (4 * j + c) = 0%Qc.
Proof.
  intros H Hi Hj Hij Hr Hc.
  destruct (getQCost_built cbar2_ v1 v2 H)
    as (Q1 & Q2 & E & _ & _ & (_ & _ & Hz1) & (_ & Hz2)).
  exists (add Q1 Q2). split; [assumption|].
  cbn [coeff add].
  replace (4 * i + r) with (i * 4 + r) by lia.
  replace (4 * j + c) with (j * 4 + c) by lia.
  rewrite Hz1, Hz2 by (try assumption; lia). ring.
Qed.

Lemma getQCost_other_blocks_zero_witness :
  cols sample_src <= cols sample_dst /\ 1 <= 1 /\ 1 <= 2 /\ 1 <> 2 /\
  0 < 4 /\ 1 < 4 /\
  exists Q,
    getQCost 1%Qc sample_src sample_dst = Ok Q /\
    coeff Q (4 * 1 + 0) (4 * 2 + 1) = 0%Qc.
Proof.
  split; [simpl; lia|]. repeat (split; [lia|]).
  apply (getQCost_other_blocks_zero 1%Qc sample_src sample_dst 1 2 0 1);
    simpl; lia.
Defined.

(** X4. When the destination set has fewer columns than the source set,
    [getQCost] fails on the read of the first missing column and returns
    no matrix. *)
Theorem getQCost_short_destination (cbar2_ : Qc) (v1 v2 : Matrix) :
  cols v2 < cols v1 ->
  getQCost cbar2_ v1 v2 = Failed IndexOutOfRange.
Proof.
  intro H. unfold getQCost.
  cbv zeta.
  replace (seq 0 (cols v1))
    with (seq 0 (cols v2) ++ seq (0 + cols v2) (S (cols v1 - cols v2 - 1)))
    by (rewrite <- seq_app; f_equal; lia).
  rewrite foldM_app.
  destruct (Q1_loop_built cbar2_ v1 v2 (4 + 4 * cols v1) (cols v2))
    as (Q1 & E & _); try lia.
  rewrite E. cbn [bind plus seq foldM].
  unfold Q1_step at 1. rewrite col_out_of_range by lia. reflexivity.
Qed.

Lemma getQCost_short_destination_witness :
  cols short_dst < cols sample_src /\
  getQCost 1%Qc sample_src short_dst = Failed IndexOutOfRange.
Proof.
  split; [simpl; lia|].
  apply (getQCost_short_destination 1%Qc sample_src short_dst). simpl; lia.
Defined.

(** ** The coefficient table [P] *)

Lemma of_int_0 : of_int 0 = 0%Qc.
Proof. reflexivity. Qed.

Lemma of_int_1 : of_int 1 = 1%Qc.
Proof. reflexivity. Qed.

Lemma of_int_m1 : of_int (-1) = (- (1))%Qc.
Proof. apply Qc_is_canon. reflexivity. Qed.

Lemma of_int_2 : of_int 2 = (1 + 1)%Qc.
Proof. apply Qc_is_canon. reflexivity. Qed.

Ltac table_ring :=
  cbn; rewrite ?of_int_0, ?of_int_1, ?of_int_m1, ?of_int_2; ring.

(** X5. The table [P] does what its comment says: it maps vec(q q^T) to
    vec(R), the column-major entries of the matrix of v |-> q v q*, for
    every quaternion q = (x, y, z, w). *)
Theorem P_maps_quaternion_to_rotation (q : Quaternion) (n : nat) :
  n < 9 ->
  coeff (mul P (map_to_vector
                  (mul (quaternion_vector q)
                       (transpose (quaternion_vector q))))) n 0
  = coeff (map_to_vector (quaternion_rotation q)) n 0.
Proof.
  intro H. destruct q as [x y z w].
  do 9 (destruct n as [|n]; [ table_ring | ]).
  lia.
Qed.

Lemma P_maps_quaternion_to_rotation_witness :
  5 < 9 /\
  coeff (mul P (map_to_vector
                  (mul (quaternion_vector q_sample)
                       (transpose (quaternion_vector q_sample))))) 5 0
  = coeff (map_to_vector (quaternion_rotation q_sample)) 5 0.
Proof.
  split; [lia|].
  apply (P_maps_quaternion_to_rotation q_sample 5). lia.
Defined.

(** X6. The matrix [P_k] built from a source point v1 and a destination
    point v2 is the quadratic form of the correlation: for every quaternion
    q, q^T P_k q = v2 . (R v1) with R the matrix of v |-> q v q*. *)
Theorem P_k_quadratic_form (q : Quaternion) (v1k v2k : Matrix) :
  rows v2k = 3 -> cols v2k = 1 ->
  dot (quaternion_vector q) (mul (P_k_of v1k v2k) (quaternion_vector q))
  = dot v2k (mul (quaternion_rotation q) v1k).
Proof.
  intros Hr Hc. destruct q as [x y z w].
  unfold dot, P_k_of, mul, map_to_matrix, map_to_vector, transpose, block.
  cbn [rows cols coeff quaternion_vector quaternion_rotation of_rows].
  rewrite Hr, Hc.
  table_ring.
Qed.

Lemma P_k_quadratic_form_witness :
  rows (point sample_dst 1) = 3 /\ cols (point sample_dst 1) = 1 /\
  dot (quaternion_vector q_sample)
      (mul (P_k_of (point sample_src 1) (point sample_dst 1))
           (quaternion_vector q_sample))
  = dot (point sample_dst 1)
        (mul (quaternion_rotation q_sample) (point sample_src 1)).
Proof.
  split; [reflexivity|]. split; [reflexivity|].
  apply (P_k_quadratic_form q_sample (point sample_src 1) (point sample_dst 1));
    reflexivity.
Defined.

(** ** The block-diagonal embedding *)

Lemma fold_left_snoc {A B : Type} (f : A -> B -> A) (l : list B) (b : B)
      (a : A) :
  fold_left f (l ++ [b]) a = f (fold_left f l a) b.
Proof. rewrite fold_left_app. reflexivity. Qed.

Lemma block_diag_loop (Npm : nat) (B : Matrix) (n : nat) :
  let D := fold_left
             (fun D_omega i => set_block D_omega (i * 4) (i * 4) 4 4 B)
             (seq 0 n) (Zero Npm Npm) in
  rows D = Npm /\ cols D = Npm /\
  forall i j r c, r < 4 -> c < 4 ->
    coeff D (4 * i + r) (4 * j + c)
    = if (i =? j) && (i <? n) then coeff B r c else 0%Qc.
Proof.
  induction n as [|n IH]; cbv zeta.
  - cbn [seq fold_left]. repeat split. intros i j r c _ _.
    rewrite andb_false_r. reflexivity.
  - rewrite seq_S, fold_left_snoc. cbv zeta in IH.
    destruct IH as (Hr & Hc & IH).
    cbn [plus rows cols coeff set_block].
    split; [assumption|]. split; [assumption|].
    intros i j r c Hr4 Hc4. rewrite IH by assumption.
    block_cases.
    + assert (i = n /\ j = n) as [-> ->] by lia.
      rewrite Nat.eqb_refl. replace (n <? S n) with true
        by (symmetry; apply Nat.ltb_lt; lia).
      cbn [andb]. f_equal; lia.
    + destruct (Nat.eqb_spec i j) as [->|Hij]; cbn [andb]; [|reflexivity].
      assert (j <> n) by lia.
      destruct (Nat.ltb_spec j n), (Nat.ltb_spec j (S n)); try lia; reflexivity.
Qed.

(** X7. [getBlockDiagOmega] returns an Npm by Npm matrix whose 4 by 4 block
    (i,j) is [getOmega1 q] when i = j < Npm / 4 and zero otherwise; rows
    and columns past the last whole block stay zero. *)
Theorem getBlockDiagOmega_blocks (Npm : nat) (q : Quaternion)
        (i j r c : nat) :
  r < 4 -> c < 4 ->
  rows (getBlockDiagOmega Npm q) = Npm /\
  cols (getBlockDiagOmega Npm q) = Npm /\
  coeff (getBlockDiagOmega Npm q) (4 * i + r) (4 * j + c)
  = if (i =? j) && (i <? Npm / 4) then coeff (getOmega1 q) r c else 0%Qc.
Proof.
  intros Hr Hc. unfold getBlockDiagOmega.
  destruct (block_diag_loop Npm (getOmega1 q) (Npm / 4)) as (H1 & H2 & H3).
  split; [exact H1|]. split; [exact H2|]. apply H3; assumption.
Qed.

Lemma getBlockDiagOmega_blocks_witness :
  1 < 4 /\ 3 < 4 /\
  rows (getBlockDiagOmega 10 q_sample) = 10 /\
  cols (getBlockDiagOmega 10 q_sample) = 10 /\
  coeff (getBlockDiagOmega 10 q_sample) (4 * 1 + 1) (4 * 1 + 3)
  = if (1 =? 1) && (1 <? 10 / 4) then coeff (getOmega1 q_sample) 1 3
    else 0%Qc.
Proof.
  split; [lia|]. split; [lia|].
  apply (getBlockDiagOmega_blocks 10 q_sample 1 1 1 3); lia.
Defined.

(** ** The block row sum: closed form *)

Lemma sum_upto_blocks_of_4 (n : nat) (f : nat -> Qc) :
  sum_upto (4 * n) f
  = sum_upto n (fun k => (f (4 * k)%nat + f (4 * k + 1)%nat
                          + f (4 * k + 2)%nat + f (4 * k + 3)%nat)%Qc).
Proof.
  induction n as [|n IH].
  - reflexivity.
  - replace (4 * S n) with (S (S (S (S (4 * n))))) by lia.
    cbn [sum_upto]. rewrite IH.
    replace (S (4 * n)) with (4 * n + 1) by lia.
    replace (S (4 * n + 1)) with (4 * n + 2) by lia.
    replace (S (4 * n + 2)) with (4 * n + 3) by lia.
    ring.
Qed.

Lemma div_mod_4 (k t : nat) :
  t < 4 -> (4 * k + t) / 4 = k /\ (4 * k + t) mod 4 = t.
Proof.
  intro H. split.
  - symmetry. apply (Nat.div_unique (4 * k + t) 4 k t); lia.
  - symmetry. apply (Nat.mod_unique (4 * k + t) 4 k t); lia.
Qed.

(** X8. When A has four columns per entry of theta, [getBlockRowSum]
    returns, in its entry r, the sum over k of theta_k times the
    coefficient (row + r, 4k + 3) of A: only the fourth column of every
    block of columns contributes. *)
Theorem getBlockRowSum_closed_form (A : Matrix) (row : nat) (theta : Matrix)
        (r : nat) :
  cols A = 4 * cols theta ->
  coeff (getBlockRowSum A row theta) r 0
  = sum_upto (cols theta)
      (fun k => (coeff A (row + r)%nat (4 * k + 3)%nat * coeff theta 0 k)%Qc).
Proof.
  intro H. rewrite getBlockRowSum_rows, H, sum_upto_blocks_of_4.
  apply sum_upto_ext. intros k Hk.
  unfold vectorKron, transpose, set_coeff, Zero.
  cbn [coeff rows cols].
  replace (4 * k) with (4 * k + 0) at 1 2 3 by lia.
  destruct (div_mod_4 k 0) as [-> ->]; [lia|].
  destruct (div_mod_4 k 1) as [-> ->]; [lia|].
  destruct (div_mod_4 k 2) as [-> ->]; [lia|].
  destruct (div_mod_4 k 3) as [-> ->]; [lia|].
  cbn [Nat.eqb andb]. ring.
Qed.

Lemma getBlockRowSum_closed_form_witness :
  cols A8 = 4 * cols th2 /\
  coeff (getBlockRowSum A8 1 th2) 3 0
  = sum_upto (cols th2)
      (fun k => (coeff A8 (1 + 3)%nat (4 * k + 3)%nat * coeff th2 0 k)%Qc).
Proof.
  split; [reflexivity|].
  apply (getBlockRowSum_closed_form A8 1 th2 3). reflexivity.
Defined.

(** ** The dual projection: its assertions *)

Lemma fold_left_invariant {A B : Type} (Inv : A -> Prop) (f : A -> B -> A)
      (l : list B) (a : A) :
  (forall a b, Inv a -> Inv (f a b)) -> Inv a -> Inv (fold_left f l a).
Proof.
  intro Hf. revert a. induction l as [|b l IH]; intros a Ha; simpl.
  - assumption.
  - apply IH, Hf, Ha.
Qed.

Lemma size_t_of_int_le (n : nat) : size_t_of_int (Z.of_nat n) <= n.
Proof.
  unfold size_t_of_int.
  assert (H : (0 <= Z.of_nat n mod 2 ^ 64 <= Z.of_nat n)%Z).
  { split.
    - apply Z.mod_pos_bound. lia.
    - apply Z.mod_le; lia. }
  lia.
Qed.

Lemma size_t_of_int_small (n : nat) :
  (Z.of_nat n < 2 ^ 64)%Z -> size_t_of_int (Z.of_nat n) = n.
Proof.
  intro H. unfold size_t_of_int.
  rewrite Z.mod_small by lia. apply Nat2Z.id.
Qed.

(** The [int] -1 compared in [size_t] is 2^64 - 1, not 0. *)
Lemma size_t_of_minus_one : exists k, size_t_of_int (-1) = S k.
Proof.
  unfold size_t_of_int.
  change ((-1) mod 2 ^ 64)%Z with (Z.pos 18446744073709551615).
  change (Z.to_nat (Z.pos 18446744073709551615))
    with (Pos.to_nat 18446744073709551615).
  apply Pos2Nat.is_succ.
Qed.

Section DualProjectionFacts.
Variable W : Matrix.
Variable theta : Matrix.
Variable A_inv : SparseMatrix.
Variable g : nat -> nat -> Qc * Qc.
Variable W_dual_in : Matrix.
Variable junk : nat -> nat -> Qc.

Lemma off_diagonal_loops_size :
  rows (off_diagonal_loops W theta A_inv g W_dual_in junk) = rows W /\
  cols (off_diagonal_loops W theta A_inv g W_dual_in junk) = rows W.
Proof.
  unfold off_diagonal_loops.
  apply (fold_left_invariant
           (fun st : Matrix * Matrix * nat =>
              rows (fst (fst st)) = rows W /\ cols (fst (fst st)) = rows W)).
  - intros st i H. exact H.
  - split; reflexivity.
Qed.

Lemma assert_condition :
  (Z.of_nat (cols theta) =? dp_N W + 1)%Z = (cols theta =? rows W / 4).
Proof.
  unfold dp_N, dp_Npm.
  destruct (Nat.eqb_spec (cols theta) (rows W / 4)) as [E|E].
  - apply Z.eqb_eq. lia.
  - apply Z.eqb_neq. lia.
Qed.

(** With fewer than four rows N is -1, the bound of the second loops
    wraps around in [size_t], and their first slice of W is out of range. *)
Lemma second_loops_need_four_rows :
  rows W < 4 -> second_loops_in_range W A_inv = false.
Proof.
  intro H. unfold second_loops_in_range, dp_N, dp_Npm.
  rewrite (Nat.div_small (rows W) 4 H).
  change (Z.of_nat 0 - 1)%Z with (-1)%Z.
  destruct size_t_of_minus_one as [k ->].
  cbn [seq forallb].
  replace (0 * 4 + 4 <=? rows W) with false
    by (symmetry; apply Nat.leb_gt; lia).
  reflexivity.
Qed.

(** The sum with the transpose is never evaluated on a matrix of two rows
    or more. *)
Lemma symmetrized_fails :
  2 <= rows W ->
  symmetrized W theta A_inv g W_dual_in junk = Failed TransposeAliasing.
Proof.
  intro H. unfold symmetrized, add_transpose_assign.
  destruct off_diagonal_loops_size as [-> ->].
  rewrite Nat.eqb_refl. cbn [negb].
  replace (1 <? rows W) with true by (symmetry; apply Nat.ltb_lt; lia).
  reflexivity.
Qed.
End DualProjectionFacts.



(** ** The linear projection: the numbering of the pairs *)

Lemma to_int_of_int (z : Z) : to_int (of_int z) = z.
Proof.
  unfold to_int, of_int. cbn [this Q2Qc].
  rewrite Qred_identity.
  - cbn [Qnum Qden inject_Z]. apply Z.quot_1_r.
  - cbn [Qnum Qden inject_Z]. apply Z.gcd_1_r.
Qed.

(** The inner loop over j for one row i, as long as [count] stays an
    [int]. *)
Lemma mat2vec_row (i : nat) (len j0 : nat) (m : Matrix) (count : Z) :
  (0 <= count)%Z -> (count + Z.of_nat len < 2147483648)%Z ->
  let st := fold_left
              (fun (st : Matrix * Z) j =>
                 (set_coeff (fst st) i j (of_int (snd st)),
                  int_wrap (snd st + 1)))
              (seq j0 len) (m, count) in
  snd st = (count + Z.of_nat len)%Z /\
  forall a b,
    coeff (fst st) a b
    = if (a =? i) && (j0 <=? b) && (b <? j0 + len)
      then of_int (count + Z.of_nat (b - j0))
      else coeff m a b.
Proof.
  revert j0 m count.
  induction len as [|len IH]; intros j0 m count H0 Hlen; cbv zeta.
  - cbn [seq fold_left fst snd]. split; [lia|].
    intros a b.
    destruct (a =? i), (Nat.leb_spec j0 b), (Nat.ltb_spec b (j0 + 0));
      cbn [andb]; try reflexivity; lia.
  - cbn [seq fold_left fst snd].
    rewrite (int_wrap_small (count + 1)) by lia.
    specialize (IH (S j0) (set_coeff m i j0 (of_int count)) (count + 1)%Z
                   ltac:(lia) ltac:(lia)).
    cbv zeta in IH. destruct IH as [IH1 IH2].
    split; [rewrite IH1; lia|].
    intros a b. rewrite IH2. cbn [coeff set_coeff].
    destruct (Nat.eqb_spec a i), (Nat.leb_spec (S j0) b),
             (Nat.ltb_spec b (S j0 + len)), (Nat.leb_spec j0 b),
             (Nat.ltb_spec b (j0 + S len)), (Nat.eqb_spec b j0);
      cbn [andb]; try reflexivity; try lia.
    + f_equal. lia.
    + subst b. f_equal. lia.
Qed.

Lemma pair_offset_monotone (N a b : nat) :
  a <= b -> pair_offset N a <= pair_offset N b.
Proof.
  induction 1 as [|b Hab IH]; [lia|]. cbn [pair_offset]. lia.
Qed.

Lemma pair_offset_beyond (N n : nat) :
  N <= n -> pair_offset N n = pair_offset N N.
Proof.
  induction 1 as [|n Hn IH]; [reflexivity|].
  cbn [pair_offset]. rewrite IH. lia.
Qed.

Lemma pair_offset_le_total (N n : nat) :
  pair_offset N n <= pair_offset N N.
Proof.
  destruct (Nat.le_gt_cases n N) as [H|H].
  - apply pair_offset_monotone. assumption.
  - rewrite pair_offset_beyond by lia. lia.
Qed.

Lemma pair_offset_closed (N n : nat) :
  n <= N -> 2 * pair_offset N n + n * (n + 1) = 2 * n * N.
Proof.
  induction n as [|n IH]; intro H; cbn [pair_offset]; [lia|].
  specialize (IH ltac:(lia)). nia.
Qed.

(** The first loop of [getLinearProjection] numbers the pairs i < j < N row
    by row, whatever the number of rows it visits, as long as the number
    of pairs is an [int]. *)
Lemma build_mat2vec_coeff (N n : nat) :
  (Z.of_nat (pair_offset N n) < 2147483648)%Z ->
  let st := fold_left
              (fun st i =>
                 fold_left
                   (fun (st : Matrix * Z) j =>
                      (set_coeff (fst st) i j (of_int (snd st)),
                       int_wrap (snd st + 1)))
                   (seq (i + 1) (N - (i + 1))) st)
              (seq 0 n) (Zero N N, 0%Z) in
  snd st = Z.of_nat (pair_offset N n) /\
  forall a b,
    coeff (fst st) a b
    = if (a <? n) && (a <? b) && (b <? N)
      then of_int (Z.of_nat (pair_index N a b))
      else 0%Qc.
Proof.
  induction n as [|n IH]; intro Hint; cbv zeta.
  - cbn [seq fold_left fst snd pair_offset]. split; [reflexivity|].
    intros a b. reflexivity.
  - rewrite seq_S, fold_left_snoc. cbn [plus].
    cbn [pair_offset] in Hint.
    specialize (IH ltac:(lia)). cbv zeta in IH.
    destruct IH as [IH1 IH2].
    match goal with
    | |- context [fold_left ?f (seq (n + 1) ?len) ?st0] =>
        destruct (mat2vec_row n len (n + 1) (fst st0) (snd st0))
          as [R1 R2];
        [ rewrite IH1; lia | rewrite IH1; lia | ];
        cbv zeta in R1, R2;
        rewrite <- (surjective_pairing st0) in R1, R2
    end.
    split.
    + rewrite R1, IH1. cbn [pair_offset]. lia.
    + intros a b. rewrite R2, IH2, IH1.
      unfold pair_index.
      destruct (Nat.eqb_spec a n), (Nat.leb_spec (n + 1) b),
               (Nat.ltb_spec b (n + 1 + (N - (n + 1)))),
               (Nat.ltb_spec a n), (Nat.ltb_spec a (S n)),
               (Nat.ltb_spec a b), (Nat.ltb_spec b N);
        cbn [andb]; try reflexivity; try lia.
      subst a. f_equal. lia.
Qed.

Lemma var_idx_build_mat2vec (N n a b : nat) :
  (Z.of_nat (pair_offset N n) < 2147483648)%Z ->
  var_idx (build_mat2vec N n) a b
  = if (a <? n) && (a <? b) && (b <? N) then pair_index N a b else 0.
Proof.
  intro Hint. unfold var_idx, build_mat2vec.
  destruct (build_mat2vec_coeff N n Hint) as [_ H]. cbv zeta in H.
  rewrite H.
  destruct ((a <? n) && (a <? b) && (b <? N)).
  - rewrite to_int_of_int. apply Nat2Z.id.
  - reflexivity.
Qed.

Lemma pair_index_bound (N a b : nat) :
  a < b -> b < N -> pair_index N a b < pair_offset N N.
Proof.
  intros Hab HbN. unfold pair_index.
  pose proof (pair_offset_monotone N (S a) N ltac:(lia)) as H.
  cbn [pair_offset] in H. lia.
Qed.

Lemma pair_index_injective (N a b a' b' : nat) :
  a < b -> b < N -> a' < b' -> b' < N ->
  pair_index N a b = pair_index N a' b' -> a = a' /\ b = b'.
Proof.
  intros Hab HbN Hab' HbN' E. unfold pair_index in E.
  assert (Hrow : forall x y, x < y -> y < N ->
                   pair_offset N x <= pair_offset N x + (y - (x + 1))
                   /\ pair_offset N x + (y - (x + 1)) < pair_offset N (S x)).
  { intros x y Hx Hy. cbn [pair_offset]. lia. }
  destruct (Nat.lt_trichotomy a a') as [Hlt|[Heq|Hgt]].
  - pose proof (pair_offset_monotone N (S a) a' ltac:(lia)).
    pose proof (Hrow a b Hab HbN). lia.
  - subst a'. split; [reflexivity|]. lia.
  - pose proof (pair_offset_monotone N (S a') a ltac:(lia)).
    pose proof (Hrow a' b' Hab' HbN'). lia.
Qed.

Lemma var_idx_in_range (N n a b : nat) :
  (Z.of_nat (pair_offset N N) < 2147483648)%Z ->
  a < b -> b < N -> var_idx (build_mat2vec N n) a b < pair_offset N N.
Proof.
  intros Hint Hab HbN.
  pose proof (pair_offset_le_total N n).
  rewrite var_idx_build_mat2vec by lia.
  destruct ((a <? n) && (a <? b) && (b <? N)).
  - apply pair_index_bound; assumption.
  - pose proof (pair_index_bound N a b Hab HbN). lia.
Qed.

(** Up to 46341 entries of theta no [int] of [getLinearProjection] wraps
    around: 46341 * 46340 is below 2^31. *)
Lemma pair_offset_int (n : nat) :
  (Z.of_nat n <= 46341)%Z -> (Z.of_nat (pair_offset n n) < 2147483648)%Z.
Proof.
  intro H. pose proof (pair_offset_closed n n (le_n n)) as E.
  apply (f_equal Z.of_nat) in E.
  rewrite Nat2Z.inj_add, !Nat2Z.inj_mul, Nat2Z.inj_add in E.
  change (Z.of_nat 2) with 2%Z in E. change (Z.of_nat 1) with 1%Z in E.
  set (m := Z.of_nat n) in *. set (p := Z.of_nat (pair_offset n n)) in *.
  assert (0 <= m)%Z by (subst m; lia).
  assert (m * m <= 46341 * 46341)%Z by nia.
  lia.
Qed.

Lemma nr_vals_Z (n : nat) :
  Z.quot (Z.of_nat n * (Z.of_nat n - 1)) 2 = Z.of_nat (pair_offset n n).
Proof.
  pose proof (pair_offset_closed n n (le_n n)) as H.
  replace (Z.of_nat n * (Z.of_nat n - 1))%Z
    with (Z.of_nat (pair_offset n n) * 2)%Z by nia.
  apply Z.quot_mul. lia.
Qed.

(** X14. For a theta of at most 46341 entries, the range in which the
    [int]s of [getLinearProjection] do not wrap around, every triplet
    handed to [setFromTriplets] lies inside the matrix: its row and its
    column are below the size nr_vals. *)
Theorem getLinearProjection_triplets_in_range (theta : Matrix) :
  (Z.of_nat (cols theta) <= 46341)%Z ->
  Forall (fun t => t_row t < s_rows (getLinearProjection theta) /\
                   t_col t < s_cols (getLinearProjection theta))
         (s_triplets (getLinearProjection theta)).
Proof.
  intro Hsmall. unfold getLinearProjection. cbn [s_rows s_cols s_triplets].
  set (N := cols theta) in *.
  pose proof (pair_offset_int N Hsmall) as Hint.
  pose proof (pair_offset_closed N N (le_n N)) as Hclosed.
  rewrite (int_wrap_small (Z.of_nat N - 1)) by lia.
  replace (Z.of_nat N - 1 + 1)%Z with (Z.of_nat N) by lia.
  rewrite (int_wrap_small (Z.of_nat N)) by lia.
  rewrite (int_wrap_small (Z.of_nat N * (Z.of_nat N - 1))) by nia.
  rewrite nr_vals_Z, !Nat2Z.id.
  apply Forall_app; split.
  - apply Forall_flat_map; intros i _.
    apply Forall_flat_map; intros j Hj. apply in_seq in Hj.
    apply Forall_app; split.
    + unfold row_i_triplets. apply Forall_flat_map; intros p Hp.
      apply in_seq in Hp.
      destruct (Nat.eqb_spec p j), (Nat.eqb_spec p i); cbn [negb andb];
        try constructor.
      destruct (Nat.ltb_spec p i); repeat constructor; cbn [t_row t_col];
        apply var_idx_in_range; try assumption; lia.
    + unfold row_j_triplets. apply Forall_flat_map; intros p Hp.
      apply in_seq in Hp.
      destruct (Nat.eqb_spec p i), (Nat.eqb_spec p j); cbn [negb andb];
        try constructor.
      destruct (Nat.ltb_spec p j); repeat constructor; cbn [t_row t_col];
        apply var_idx_in_range; try assumption; lia.
  - apply Forall_forall. intros t Ht.
    apply in_map_iff in Ht. destruct Ht as (k & <- & Hk).
    apply in_seq in Hk. cbn [t_row t_col].
    pose proof (size_t_of_int_le (pair_offset N N)). lia.
Qed.

Lemma getLinearProjection_triplets_in_range_witness :
  (Z.of_nat (cols th4) <= 46341)%Z /\
  Forall (fun t => t_row t < s_rows (getLinearProjection th4) /\
                   t_col t < s_cols (getLinearProjection th4))
         (s_triplets (getLinearProjection th4)).
Proof.
  split; [simpl; lia|].
  apply (getLinearProjection_triplets_in_range th4). simpl; lia.
Defined.

(** X15. For N up to 65536, the range in which the [int] [count] does not
    wrap around, the first loop of [getLinearProjection] gives the pairs
    i < j < N distinct numbers below N(N-1)/2: [mat2vec] is one-to-one on
    the pairs it is read at. *)
Theorem mat2vec_numbers_pairs (N i j i' j' : nat) :
  (Z.of_nat N <= 65536)%Z ->
  i < j -> j < N -> i' < j' -> j' < N ->
  2 * var_idx (build_mat2vec N (size_t_of_int (Z.of_nat N - 1))) i j + 2
    <= N * (N - 1) /\
  (var_idx (build_mat2vec N (size_t_of_int (Z.of_nat N - 1))) i j
   = var_idx (build_mat2vec N (size_t_of_int (Z.of_nat N - 1))) i' j' ->
   i = i' /\ j = j').
Proof.
  intros HN Hij HjN Hij' HjN'.
  replace (Z.of_nat N - 1)%Z with (Z.of_nat (N - 1)) by lia.
  rewrite size_t_of_int_small
    by (change (2 ^ 64)%Z with 18446744073709551616%Z; lia).
  pose proof (pair_offset_closed N N (le_n N)) as Hclosed.
  pose proof (pair_offset_le_total N (N - 1)) as Hle.
  assert (Hint : (Z.of_nat (pair_offset N (N - 1)) < 2147483648)%Z) by nia.
  rewrite !var_idx_build_mat2vec by assumption.
  replace ((i <? N - 1) && (i <? j) && (j <? N)) with true
    by (symmetry; rewrite !andb_true_iff, !Nat.ltb_lt; lia).
  replace ((i' <? N - 1) && (i' <? j') && (j' <? N)) with true
    by (symmetry; rewrite !andb_true_iff, !Nat.ltb_lt; lia).
  split.
  - pose proof (pair_index_bound N i j Hij HjN). nia.
  - apply pair_index_injective; assumption.
Qed.

Lemma mat2vec_numbers_pairs_witness :
  (Z.of_nat 4 <= 65536)%Z /\ 1 < 3 /\ 3 < 4 /\ 0 < 2 /\ 2 < 4 /\
  2 * var_idx (build_mat2vec 4 (size_t_of_int (Z.of_nat 4 - 1))) 1 3 + 2
    <= 4 * (4 - 1) /\
  (var_idx (build_mat2vec 4 (size_t_of_int (Z.of_nat 4 - 1))) 1 3
   = var_idx (build_mat2vec 4 (size_t_of_int (Z.of_nat 4 - 1))) 0 2 ->
   1 = 0 /\ 3 = 2).
Proof.
  repeat (split; [lia|]).
  apply (mat2vec_numbers_pairs 4 1 3 0 2); lia.
Defined.

(** For N = 4 the pair (1, 3) has the number 4. *)
Example mat2vec_sample :
  var_idx (build_mat2vec 4 (size_t_of_int (Z.of_nat 4 - 1))) 1 3 = 4.
Proof. vm_compute; reflexivity. Qed.

Lemma map_flat_map {A B C : Type} (f : B -> C) (h : A -> list B)
      (l : list A) :
  map f (flat_map h l) = flat_map (fun a => map f (h a)) l.
Proof.
  induction l as [|a l IH]; simpl.
  - reflexivity.
  - rewrite map_app, IH. reflexivity.
Qed.

Lemma row_i_triplets_positions (theta theta' m : Matrix) (y : Z)
      (N i j : nat) :
  map t_pos (row_i_triplets theta m y N i j)
  = map t_pos (row_i_triplets theta' m y N i j).
Proof.
  unfold row_i_triplets. rewrite !map_flat_map.
  apply flat_map_ext. intro p.
  destruct (negb (p =? j) && negb (p =? i)); [|reflexivity].
  destruct (p <? i); reflexivity.
Qed.

Lemma row_j_triplets_positions (theta theta' m : Matrix) (y : Z)
      (N i j : nat) :
  map t_pos (row_j_triplets theta m y N i j)
  = map t_pos (row_j_triplets theta' m y N i j).
Proof.
  unfold row_j_triplets. rewrite !map_flat_map.
  apply flat_map_ext. intro p.
  destruct (negb (p =? i) && negb (p =? j)); [|reflexivity].
  destruct (p <? j); reflexivity.
Qed.

(** X16. The size of the matrix and the positions of its triplets, in the
    order they are produced, depend on the length of theta only, not on
    its entries. *)
Theorem getLinearProjection_pattern (theta theta' : Matrix) :
  cols theta = cols theta' ->
  s_rows (getLinearProjection theta) = s_rows (getLinearProjection theta') /\
  s_cols (getLinearProjection theta) = s_cols (getLinearProjection theta') /\
  map t_pos (s_triplets (getLinearProjection theta))
  = map t_pos (s_triplets (getLinearProjection theta')).
Proof.
  intro H. unfold getLinearProjection. cbn [s_rows s_cols s_triplets].
  rewrite H. split; [reflexivity|]. split; [reflexivity|].
  rewrite !map_app, !map_flat_map. f_equal.
  apply flat_map_ext. intro i.
  rewrite !map_flat_map. apply flat_map_ext. intro j.
  rewrite !map_app. f_equal.
  - apply row_i_triplets_positions.
  - apply row_j_triplets_positions.
Qed.

Lemma getLinearProjection_pattern_witness :
  cols th3 = cols (of_rows 1 3 [ [ 1%Qc; of_int (-1); 1%Qc ] ]) /\
  s_rows (getLinearProjection th3)
  = s_rows (getLinearProjection (of_rows 1 3 [ [ 1%Qc; of_int (-1); 1%Qc ] ])) /\
  s_cols (getLinearProjection th3)
  = s_cols (getLinearProjection (of_rows 1 3 [ [ 1%Qc; of_int (-1); 1%Qc ] ])) /\
  map t_pos (s_triplets (getLinearProjection th3))
  = map t_pos (s_triplets (getLinearProjection
                             (of_rows 1 3 [ [ 1%Qc; of_int (-1); 1%Qc ] ]))).
Proof.
  split; [reflexivity|].
  apply (getLinearProjection_pattern th3
           (of_rows 1 3 [ [ 1%Qc; of_int (-1); 1%Qc ] ])).
  reflexivity.
Defined.

(** ** The initial guess on an empty theta *)

(** X17. On a theta without entries the loop of [getLambdaGuess] does not
    run: the call succeeds and returns the 4 by 4 zero matrix, whatever
    the rotation and the point sets are. *)
Theorem getLambdaGuess_empty (cbar2_ : Qc) (R theta src dst : Matrix) :
  rows theta * cols theta = 0 ->
  exists L,
    getLambdaGuess cbar2_ R theta src dst = Ok L /\
    s_rows L = 4 /\ s_cols L = 4 /\
    forall i j, s_coeff L i j = 0%Qc.
Proof.
  intro H. unfold getLambdaGuess. rewrite H.
  cbn [seq foldM bind fst snd app].
  eexists; split; [reflexivity|].
  split; [reflexivity|]. split; [reflexivity|].
  apply s_coeff_all_zero. cbn [s_triplets].
  unfold block_triplets. cbn [seq flat_map map app].
  repeat constructor.
Qed.

Lemma getLambdaGuess_empty_witness :
  rows th0 * cols th0 = 0 /\
  exists L,
    getLambdaGuess 1%Qc (Identity 3) th0 sample_src sample_dst = Ok L /\
    s_rows L = 4 /\ s_cols L = 4 /\
    forall i j, s_coeff L i j = 0%Qc.
Proof.
  split; [reflexivity|].
  apply (getLambdaGuess_empty 1%Qc (Identity 3) th0 sample_src sample_dst).
  reflexivity.
Defined.

(** ** The linear projection: the triplets of one column *)

Lemma length_flat_map_filter {A B : Type} (keep : A -> bool) (f : A -> B)
      (l : list A) :
  length (flat_map (fun a => if keep a then [f a] else []) l)
  = length (filter keep l).
Proof.
  induction l as [|a l IH]; simpl.
  - reflexivity.
  - destruct (keep a); simpl; rewrite IH; reflexivity.
Qed.

Lemma filter_all {A : Type} (keep : A -> bool) (l : list A) :
  (forall a, In a l -> keep a = true) -> filter keep l = l.
Proof.
  induction l as [|a l IH]; intro H; simpl.
  - reflexivity.
  - rewrite (H a) by (left; reflexivity).
    rewrite IH by (intros; apply H; right; assumption). reflexivity.
Qed.

(** Among 0 .. N-1, all but i and j pass the test of the [p] loops. *)
Lemma count_other_indices (N i j : nat) :
  i < j -> j < N ->
  length (filter (fun p => negb (p =? j) && negb (p =? i)) (seq 0 N))
  = N - 2.
Proof.
  intros Hij HjN.
  replace N with (i + (1 + ((j - i - 1) + (1 + (N - j - 1))))) at 1 by lia.
  rewrite !seq_app, !filter_app, !length_app.
  cbn [seq filter plus].
  replace (0 + i) with i by lia.
  replace (i + 1 + (j - i - 1)) with j by lia.
  rewrite Nat.eqb_refl, andb_false_r.
  replace (i =? j) with false by (symmetry; apply Nat.eqb_neq; lia).
  rewrite Nat.eqb_refl. cbn [negb andb length].
  rewrite !filter_all, !length_seq; try lia.
  - intros p Hp. apply in_seq in Hp.
    apply andb_true_iff; split; apply negb_true_iff, Nat.eqb_neq; lia.
  - intros p Hp. apply in_seq in Hp.
    apply andb_true_iff; split; apply negb_true_iff, Nat.eqb_neq; lia.
  - intros p Hp. apply in_seq in Hp.
    apply andb_true_iff; split; apply negb_true_iff, Nat.eqb_neq; lia.
Qed.

Lemma row_i_triplets_length (theta m : Matrix) (y : Z) (N i j : nat) :
  length (row_i_triplets theta m y N i j)
  = length (filter (fun p => negb (p =? j) && negb (p =? i)) (seq 0 N)).
Proof.
  unfold row_i_triplets.
  rewrite <- (length_flat_map_filter
                (fun p => negb (p =? j) && negb (p =? i))
                (fun p => if p <? i
                          then mkTriplet (var_idx m p i) (var_idx m i j)
                                 (of_int y * th theta j * th theta p)%Qc
                          else mkTriplet (var_idx m i p) (var_idx m i j)
                                 (of_int (- y) * th theta j * th theta p)%Qc)).
  f_equal. apply flat_map_ext. intro p.
  destruct (negb (p =? j) && negb (p =? i)); [|reflexivity].
  destruct (p <? i); reflexivity.
Qed.

Lemma row_j_triplets_length (theta m : Matrix) (y : Z) (N i j : nat) :
  length (row_j_triplets theta m y N i j)
  = length (filter (fun p => negb (p =? i) && negb (p =? j)) (seq 0 N)).
Proof.
  unfold row_j_triplets.
  rewrite <- (length_flat_map_filter
                (fun p => negb (p =? i) && negb (p =? j))
                (fun p => if p <? j
                          then mkTriplet (var_idx m p j) (var_idx m i j)
                                 (of_int (- y) * th theta i * th theta p)%Qc
                          else mkTriplet (var_idx m j p) (var_idx m i j)
                                 (of_int y * th theta i * th theta p)%Qc)).
  f_equal. apply flat_map_ext. intro p.
  destruct (negb (p =? i) && negb (p =? j)); [|reflexivity].
  destruct (p <? j); reflexivity.
Qed.

(** X18. For one pair i < j < N the two [p] loops of
    [getLinearProjection] push 2 (N - 2) triplets, all in the column of the
    pair: the count [2 * (N0 - 1)] that the source names
    [nrNZ_per_row_off_diag]. *)
Theorem pair_triplets_count (theta m : Matrix) (y : Z) (N i j : nat) :
  i < j -> j < N ->
  length (row_i_triplets theta m y N i j ++ row_j_triplets theta m y N i j)
  = 2 * (N - 2) /\
  Forall (fun t => t_col t = var_idx m i j)
         (row_i_triplets theta m y N i j ++ row_j_triplets theta m y N i j).
Proof.
  intros Hij HjN. split.
  - rewrite length_app, row_i_triplets_length, row_j_triplets_length.
    rewrite (count_other_indices N i j Hij HjN).
    replace (filter (fun p => negb (p =? i) && negb (p =? j)) (seq 0 N))
      with (filter (fun p => negb (p =? j) && negb (p =? i)) (seq 0 N)).
    + rewrite (count_other_indices N i j Hij HjN). lia.
    + apply filter_ext. intro p. apply andb_comm.
  - apply Forall_app; split.
    + unfold row_i_triplets. apply Forall_flat_map; intros p _.
      destruct (negb (p =? j) && negb (p =? i)); [|constructor].
      destruct (p <? i); repeat constructor.
    + unfold row_j_triplets. apply Forall_flat_map; intros p _.
      destruct (negb (p =? i) && negb (p =? j)); [|constructor].
      destruct (p <? j); repeat constructor.
Qed.

Lemma pair_triplets_count_witness :
  1 < 3 /\ 3 < 4 /\
  length (row_i_triplets th4 (build_mat2vec 4 3) 0 4 1 3
          ++ row_j_triplets th4 (build_mat2vec 4 3) 0 4 1 3)
  = 2 * (4 - 2) /\
  Forall (fun t => t_col t = var_idx (build_mat2vec 4 3) 1 3)
         (row_i_triplets th4 (build_mat2vec 4 3) 0 4 1 3
          ++ row_j_triplets th4 (build_mat2vec 4 3) 0 4 1 3).
Proof.
  split; [lia|]. split; [lia|].
  apply (pair_triplets_count th4 (build_mat2vec 4 3) 0 4 1 3); lia.
Defined.

(** ** [getOptimalDualProjection]: how far a call gets *)

Section DualProjectionReach.
Variable W : Matrix.
Variable theta : Matrix.
Variable A_inv : SparseMatrix.

Lemma loops_fold_true (check : nat -> nat -> bool)
      (l : list (nat * nat)) (count : nat) :
  (forall ij, In ij l -> check (fst ij) (snd ij) = true) ->
  count + length l <= s_rows A_inv ->
  fst (fold_left
         (fun (st : bool * nat) ij =>
            (fst st && check (fst ij) (snd ij) && (snd st <? s_rows A_inv),
             snd st + 1))
         l (true, count)) = true.
Proof.
  revert count. induction l as [|ij l IH]; intros count Hc Hlen.
  - reflexivity.
  - cbn [fold_left fst snd length] in *.
    rewrite (Hc ij (or_introl eq_refl)).
    replace (count <? s_rows A_inv) with true
      by (symmetry; apply Nat.ltb_lt; lia).
    cbn [andb]. apply IH.
    + intros ij' Hin. apply Hc. right. assumption.
    + lia.
Qed.

Lemma dp_pairs_well_shaped :
  rows W = 4 * cols theta -> 1 <= cols theta ->
  (Z.of_nat (rows W) < 2147483648)%Z ->
  dp_pairs W
  = flat_map (fun i => map (fun j => (i, j))
                           (seq (i + 1) (cols theta - (i + 1))))
             (seq 0 (cols theta - 1)).
Proof.
  intros Hrows Hone Hint. unfold dp_pairs, dp_N, dp_Npm.
  replace (rows W / 4) with (cols theta)
    by (rewrite Hrows, Nat.mul_comm, Nat.div_mul; lia).
  replace (Z.of_nat (cols theta) - 1 + 1)%Z with (Z.of_nat (cols theta))
    by lia.
  replace (Z.of_nat (cols theta) - 1)%Z with (Z.of_nat (cols theta - 1))
    by lia.
  rewrite !size_t_of_int_small
    by (change (2 ^ 64)%Z with 18446744073709551616%Z; lia).
  reflexivity.
Qed.

Lemma pairs_length (n k : nat) :
  length (flat_map (fun i => map (fun j => (i, j))
                                 (seq (i + 1) (n - (i + 1))))
                   (seq 0 k))
  = pair_offset n k.
Proof.
  induction k as [|k IH].
  - reflexivity.
  - rewrite seq_S, flat_map_app, length_app, IH. cbn [plus flat_map].
    rewrite app_nil_r, length_map, length_seq. reflexivity.
Qed.

Lemma pairs_in (n k i j : nat) :
  In (i, j) (flat_map (fun i => map (fun j => (i, j))
                                    (seq (i + 1) (n - (i + 1))))
                      (seq 0 k))
  -> i < k /\ i < j /\ j < n.
Proof.
  intro H. apply in_flat_map in H. destruct H as (i' & Hi & Hj).
  apply in_map_iff in Hj. destruct Hj as (j' & E & Hj).
  inversion E; subst i' j'.
  apply in_seq in Hi. apply in_seq in Hj. lia.
Qed.

Lemma loops_in_range_well_shaped (check : nat -> nat -> bool) :
  rows W = 4 * cols theta -> 1 <= cols theta ->
  (Z.of_nat (rows W) < 2147483648)%Z ->
  cols theta * (cols theta - 1) <= 2 * s_rows A_inv ->
  (forall i j, i < j -> j < cols theta -> check i j = true) ->
  loops_in_range W A_inv check = true.
Proof.
  intros Hrows Hone Hint Hpairs Hcheck. unfold loops_in_range.
  rewrite (dp_pairs_well_shaped Hrows Hone Hint).
  apply loops_fold_true.
  - intros [i j] Hin. apply pairs_in in Hin. cbn [fst snd].
    apply Hcheck; lia.
  - rewrite pairs_length.
    pose proof (pair_offset_closed (cols theta) (cols theta - 1)
                                   ltac:(lia)) as E.
    replace (cols theta - 1 + 1) with (cols theta) in E by lia.
    nia.
Qed.

Lemma first_loops_well_shaped :
  rows W = 4 * cols theta -> cols W = rows W -> 1 <= cols theta ->
  (Z.of_nat (rows W) < 2147483648)%Z ->
  cols theta * (cols theta - 1) <= 2 * s_rows A_inv ->
  first_loops_in_range W A_inv = true.
Proof.
  intros Hrows Hcols Hone Hint Hpairs. unfold first_loops_in_range.
  apply (loops_in_range_well_shaped _ Hrows Hone Hint Hpairs).
  intros i j Hij Hj.
  rewrite !andb_true_iff, !Nat.leb_le. lia.
Qed.

Lemma second_loops_well_shaped :
  rows W = 4 * cols theta -> cols W = rows W -> 1 <= cols theta ->
  (Z.of_nat (rows W) < 2147483648)%Z ->
  cols theta * (cols theta - 1) <= 2 * s_rows A_inv ->
  second_loops_in_range W A_inv = true.
Proof.
  intros Hrows Hcols Hone Hint Hpairs. unfold second_loops_in_range.
  apply andb_true_iff; split.
  - apply forallb_forall. intros i Hi. apply in_seq in Hi.
    apply Nat.leb_le.
    assert (Hn : size_t_of_int (dp_N W) = cols theta - 1).
    { unfold dp_N, dp_Npm.
      replace (rows W / 4) with (cols theta)
        by (rewrite Hrows, Nat.mul_comm, Nat.div_mul; lia).
      replace (Z.of_nat (cols theta) - 1)%Z
        with (Z.of_nat (cols theta - 1)) by lia.
      apply size_t_of_int_small.
      change (2 ^ 64)%Z with 18446744073709551616%Z. lia. }
    lia.
  - apply (loops_in_range_well_shaped _ Hrows Hone Hint Hpairs).
    intros i j Hij Hj. unfold dp_Npm.
    rewrite !andb_true_iff, !Nat.leb_le. lia.
Qed.
End DualProjectionReach.

(** X9. [getOptimalDualProjection] returns no matrix, whatever it is
    called with: a W of fewer than four rows fails at the first slice of
    the second loops at the latest, and for any larger W a call that
    passes the loops stops at [*W_dual = *W_dual + W_dual->transpose()],
    where the destination is read transposed. *)
Theorem getOptimalDualProjection_never_returns
        (W theta : Matrix) (A_inv : SparseMatrix)
        (g : nat -> nat -> Qc * Qc) (W_dual_in : Matrix)
        (junk : nat -> nat -> Qc) (P : Matrix) :
  getOptimalDualProjection W theta A_inv g W_dual_in junk <> Ok P.
Proof.
  unfold getOptimalDualProjection.
  destruct (Z.of_nat (cols theta) =? dp_N W + 1)%Z; [|discriminate].
  destruct (first_loops_in_range W A_inv); [|discriminate].
  destruct (s_cols A_inv =? s_rows A_inv); [|discriminate].
  destruct (second_loops_in_range W A_inv) eqn:Hsecond; [|discriminate].
  destruct (Nat.lt_ge_cases (rows W) 4) as [Hsmall|Hlarge].
  - rewrite (second_loops_need_four_rows W A_inv Hsmall) in Hsecond.
    discriminate Hsecond.
  - rewrite symmetrized_fails by lia. discriminate.
Qed.

(** X11. On a well-shaped input, a square W of 4 rows per entry of theta
    and a square A_inv with a row for every pair, every assertion of the
    two pairs of loops holds and the call stops at
    [*W_dual = *W_dual + W_dual->transpose()]: the failure is the
    aliasing of the transposition, not the shape of the input. *)
Theorem getOptimalDualProjection_stops_at_transpose
        (W theta : Matrix) (A_inv : SparseMatrix)
        (g : nat -> nat -> Qc * Qc) (W_dual_in : Matrix)
        (junk : nat -> nat -> Qc) :
  rows W = 4 * cols theta -> cols W = rows W -> 1 <= cols theta ->
  (Z.of_nat (rows W) < 2147483648)%Z ->
  s_cols A_inv = s_rows A_inv ->
  cols theta * (cols theta - 1) <= 2 * s_rows A_inv ->
  first_loops_in_range W A_inv = true /\
  second_loops_in_range W A_inv = true /\
  getOptimalDualProjection W theta A_inv g W_dual_in junk
  = Failed TransposeAliasing.
Proof.
  intros Hrows Hcols Hone Hint Hsquare Hpairs.
  pose proof (first_loops_well_shaped W theta A_inv Hrows Hcols Hone Hint Hpairs)
    as Hfirst.
  pose proof (second_loops_well_shaped W theta A_inv Hrows Hcols Hone Hint Hpairs)
    as Hsecond.
  split; [assumption|]. split; [assumption|].
  unfold getOptimalDualProjection.
  rewrite assert_condition.
  replace (cols theta =? rows W / 4) with true
    by (symmetry; apply Nat.eqb_eq;
        rewrite Hrows, Nat.mul_comm, Nat.div_mul; lia).
  rewrite Hfirst, Hsecond.
  replace (s_cols A_inv =? s_rows A_inv) with true
    by (symmetry; apply Nat.eqb_eq; assumption).
  rewrite symmetrized_fails by lia. reflexivity.
Qed.

Lemma getOptimalDualProjection_stops_at_transpose_witness :
  rows W16 = 4 * cols th4 /\ cols W16 = rows W16 /\ 1 <= cols th4 /\
  (Z.of_nat (rows W16) < 2147483648)%Z /\
  s_cols (getLinearProjection th4) = s_rows (getLinearProjection th4) /\
  cols th4 * (cols th4 - 1) <= 2 * s_rows (getLinearProjection th4) /\
  first_loops_in_range W16 (getLinearProjection th4) = true /\
  second_loops_in_range W16 (getLinearProjection th4) = true /\
  getOptimalDualProjection W16 th4 (getLinearProjection th4)
    (fun _ _ => (0%Qc, 0%Qc)) (Zero 0 0) (fun _ _ => 1%Qc)
  = Failed TransposeAliasing.
Proof.
  split; [reflexivity|]. split; [reflexivity|]. split; [simpl; lia|].
  split; [simpl; lia|]. split; [reflexivity|]. split; [vm_compute; lia|].
  apply (getOptimalDualProjection_stops_at_transpose W16 th4
           (getLinearProjection th4)
           (fun _ _ => (0%Qc, 0%Qc)) (Zero 0 0) (fun _ _ => 1%Qc)).
  - reflexivity.
  - reflexivity.
  - simpl; lia.
  - simpl; lia.
  - reflexivity.
  - vm_compute; lia.
Defined.
